(** * Terminal text reflow: [wrap_text_for_terminal] of TerminalAI.py

    A shallow embedding of the reflow helper of the chat client and of the
    parts of Python it runs on (string methods, slicing, [textwrap.fill]),
    followed by the properties of the helper.

    Python strings are sequences of Unicode code points, and [len] counts
    code points: a string is a list of code points here.  Python integers
    are unbounded: widths and indices are in [Z]. *)

From Stdlib Require Import Ascii String.
From Stdlib Require Import List ZArith NArith Bool Lia.
Import ListNotations.
Local Open Scope Z_scope.

(** ** Python strings *)

Module Py.

Definition char := N.
Definition str := list char.

(** An ASCII literal as a Python string. *)
Definition lit (s : string) : str := map N_of_ascii (list_ascii_of_string s).

Definition len {A : Type} (s : list A) : Z := Z.of_nat (length s).

Definition nonempty (s : str) : Prop := s <> [].

Definition TAB : char := 9%N.
Definition LF : char := 10%N.
Definition CR : char := 13%N.
Definition SPACE : char := 32%N.
Definition HYPHEN : char := 45%N.

(** [str.isspace] of one character: the code points whose bidirectional
    class is WS, B or S, or whose category is Zs. *)
Definition isspace (c : char) : bool :=
  (((9 <=? c) && (c <=? 13)) || ((28 <=? c) && (c <=? 32))
   || (c =? 133) || (c =? 160) || (c =? 5760)
   || ((8192 <=? c) && (c <=? 8202))
   || (c =? 8232) || (c =? 8233) || (c =? 8239) || (c =? 8287)
   || (c =? 12288))%N.

(** [s.lstrip()], [s.rstrip()] and [s.strip()] with no argument. *)
Fixpoint lstrip (s : str) : str :=
  match s with
  | c :: s' => if isspace c then lstrip s' else s
  | [] => []
  end.

Definition rstrip (s : str) : str := rev (lstrip (rev s)).

Definition strip (s : str) : str := rstrip (lstrip s).

(** [s.startswith(prefix)]. *)
Fixpoint startswith (s prefix : str) : bool :=
  match prefix, s with
  | [], _ => true
  | p :: prefix', c :: s' => (c =? p)%N && startswith s' prefix'
  | _ :: _, [] => false
  end.

(** [c in s] for a one-character string [c]. *)
Definition contains (c : char) (s : str) : bool := existsb (N.eqb c) s.

(** [s.split(sep)] for a non-empty separator: the pieces between the
    leftmost non-overlapping occurrences of [sep].  [skip] counts the
    characters of an occurrence still to be passed over. *)
Definition cons_head (c : char) (parts : list str) : list str :=
  match parts with
  | [] => [[c]]
  | h :: t => (c :: h) :: t
  end.

Fixpoint split_from (sep : str) (skip : nat) (s : str) : list str :=
  match s with
  | [] => [[]]
  | c :: s' =>
      match skip with
      | S k => split_from sep k s'
      | O =>
          if startswith s sep
          then [] :: split_from sep (length sep - 1) s'
          else cons_head c (split_from sep 0 s')
      end
  end.

Definition split (s sep : str) : list str := split_from sep 0 s.

(** [sep.join(parts)]. *)
Fixpoint join (sep : str) (parts : list str) : str :=
  match parts with
  | [] => []
  | [p] => p
  | p :: rest => p ++ sep ++ join sep rest
  end.

(** A slice bound [i] of a sequence of length [n]: negative bounds count
    from the end, and both ends are clamped. *)
Definition slice_index (n : nat) (i : Z) : nat :=
  if i <? 0 then Z.to_nat (Z.of_nat n + i) else Nat.min (Z.to_nat i) n.

(** [s[:i]] and [s[i:]]. *)
Definition slice_to {A : Type} (s : list A) (i : Z) : list A :=
  firstn (slice_index (length s) i) s.

Definition slice_from {A : Type} (s : list A) (i : Z) : list A :=
  skipn (slice_index (length s) i) s.

(** [s.rfind(c, 0, stop)] for a one-character [c]: the highest index below
    [stop] that holds [c], or -1. *)
Fixpoint rfind_at (c : char) (s : str) (i : Z) : Z :=
  match s with
  | [] => -1
  | x :: s' =>
      let r := rfind_at c s' (i + 1) in
      if 0 <=? r then r else if (x =? c)%N then i else -1
  end.

Definition rfind (c : char) (s : str) (stop : Z) : Z :=
  rfind_at c (slice_to s stop) 0.

(** [s.expandtabs(tabsize)]: a tab becomes the spaces up to the next tab
    stop; the column restarts after a line feed or carriage return. *)
Fixpoint expandtabs_at (tabsize : Z) (line_pos : Z) (s : str) : str :=
  match s with
  | [] => []
  | c :: s' =>
      if (c =? TAB)%N then
        if 0 <? tabsize then
          let incr := tabsize - line_pos mod tabsize in
          repeat SPACE (Z.to_nat incr) ++ expandtabs_at tabsize (line_pos + incr) s'
        else expandtabs_at tabsize line_pos s'
      else
        c :: expandtabs_at tabsize
               (if (c =? LF)%N || (c =? CR)%N then 0 else line_pos + 1) s'
  end.

Definition expandtabs (s : str) (tabsize : Z) : str := expandtabs_at tabsize 0 s.

End Py.

Import Py.

(** ** Outcomes of a call

    A call returns a value or raises.  [OutOfFuel] is the outcome of a loop
    cut short by the bound this development puts on it; [fill_terminates]
    and [wrap_text_for_terminal_fuel] below show that no call produces
    it. *)

Inductive exn : Type :=
| ValueError.

Inductive outcome (A : Type) : Type :=
| Returns (a : A)
| Raises (e : exn)
| OutOfFuel.

Arguments Returns {A} a.
Arguments Raises {A} e.
Arguments OutOfFuel {A}.

Definition bind {A B : Type} (m : outcome A) (k : A -> outcome B) : outcome B :=
  match m with
  | Returns a => k a
  | Raises e => Raises e
  | OutOfFuel => OutOfFuel
  end.

Notation "x <- m ;; k" := (bind m (fun x => k))
  (at level 61, m at next level, right associativity).

(** A [for] loop whose body appends to the list [wrapped_lines]: [body]
    gives what one iteration appends, and a raise ends the loop. *)
Fixpoint for_each {A B : Type} (body : A -> outcome (list B)) (xs : list A)
    (wrapped_lines : list B) : outcome (list B) :=
  match xs with
  | [] => Returns wrapped_lines
  | x :: xs' =>
      out <- body x ;;
      for_each body xs' (wrapped_lines ++ out)
  end.

(** ** [textwrap.fill]

    The standard library's [TextWrapper] as the helper configures it:
    [break_long_words] and [break_on_hyphens] set, and the defaults
    [expand_tabs], [replace_whitespace], [drop_whitespace], [tabsize = 8],
    empty indents, no [fix_sentence_endings], no [max_lines]. *)

(** The two character tables of the Unicode database the regular
    expression classes [\w] and [\d] read outside ASCII: [str.isalnum] and
    [str.isdecimal] of one character. *)
Record unicode_db : Type := {
  uc_isalnum : char -> bool;
  uc_isdecimal : char -> bool
}.

Module Textwrap.

Section Wrapper.

Variable ucd : unicode_db.

(** [_whitespace]: tab, line feed, vertical tab, form feed, carriage
    return, space. *)
Definition whitespace (c : char) : bool :=
  (((9 <=? c) && (c <=? 13)) || (c =? 32))%N.

(** [\d], [\w], and the classes [letter] and [word_punct] of
    [wordsep_re]. *)
Definition re_digit (c : char) : bool :=
  if (c <? 128)%N then ((48 <=? c) && (c <=? 57))%N else uc_isdecimal ucd c.

Definition re_word (c : char) : bool :=
  if (c <? 128)%N
  then (((48 <=? c) && (c <=? 57)) || ((65 <=? c) && (c <=? 90))
        || ((97 <=? c) && (c <=? 122)) || (c =? 95))%N
  else uc_isalnum ucd c.

Definition letter (c : char) : bool := re_word c && negb (re_digit c).

Definition word_punct (c : char) : bool :=
  re_word c
  || ((c =? 33) || (c =? 34) || (c =? 39) || (c =? 38) || (c =? 46)
      || (c =? 44) || (c =? 63))%N.

(** [_munge_whitespace]: tabs expanded, then each whitespace character
    replaced by a space. *)
Definition _munge_whitespace (text : str) : str :=
  map (fun c => if whitespace c then SPACE else c) (expandtabs text 8).

(** *** [_split]: the matches of [wordsep_re]

    Every position of the text starts a match (a run of whitespace, else a
    run of hyphens between words, else a word), so the chunks are the
    successive matches.  [before] holds the text to the left of the
    position, nearest character first, for the look-behinds. *)

Inductive chunk_kind : Type :=
| AtStart
| InSpace
| InDashes
| InWord.

Fixpoint skip_hyphens (s : str) : str :=
  match s with
  | c :: s' => if (c =? HYPHEN)%N then skip_hyphens s' else s
  | [] => []
  end.

(** [-{2,}\w] matches at the head of [s]. *)
Definition emdash_ahead (s : str) : bool :=
  match s with
  | c1 :: c2 :: s' =>
      (c1 =? HYPHEN)%N && (c2 =? HYPHEN)%N
      && match skip_hyphens s' with
         | w :: _ => re_word w
         | [] => false
         end
  | _ => false
  end.

(** [(?<=word_punct)]. *)
Definition after_word_punct (before : str) : bool :=
  match before with
  | b :: _ => word_punct b
  | [] => false
  end.

(** The hyphen [c] of a hyphenated word, with [before] to its left and
    [s'] to its right: [(?<=letter{2}-)] or [(?<=letter-letter-)], then
    [(?=letter-?letter)]. *)
Definition hyphen_break (before : str) (c : char) (s' : str) : bool :=
  (c =? HYPHEN)%N
  && match before with
     | b1 :: b2 :: rest =>
         letter b1
         && (letter b2
             || ((b2 =? HYPHEN)%N
                 && match rest with
                    | b3 :: _ => letter b3
                    | [] => false
                    end))
     | _ => false
     end
  && match s' with
     | a1 :: a2 :: rest =>
         letter a1
         && (((a2 =? HYPHEN)%N
              && match rest with
                 | a3 :: _ => letter a3
                 | [] => false
                 end)
             || letter a2)
     | _ => false
     end.

(** The alternative of [wordsep_re] that matches at [c :: s']. *)
Definition kind_at (before : str) (c : char) (s' : str) : chunk_kind :=
  if whitespace c then InSpace
  else if after_word_punct before && emdash_ahead (c :: s') then InDashes
  else InWord.

(** Whether [c] belongs to the match in progress. *)
Definition continues (before : str) (kind : chunk_kind) (c : char) (s' : str)
  : bool :=
  match kind with
  | AtStart => false
  | InSpace => whitespace c
  | InDashes => (c =? HYPHEN)%N
  | InWord =>
      negb (whitespace c)
      && negb (after_word_punct before && emdash_ahead (c :: s'))
  end.

Definition flush (cur : str) : list str :=
  match cur with
  | [] => []
  | _ => [cur]
  end.

Fixpoint split_scan (before : str) (kind : chunk_kind) (cur : str) (s : str)
  : list str :=
  match s with
  | [] => flush cur
  | c :: s' =>
      if continues before kind c s' then
        if match kind with InWord => hyphen_break before c s' | _ => false end
        then (cur ++ [c]) :: split_scan (c :: before) AtStart [] s'
        else split_scan (c :: before) kind (cur ++ [c]) s'
      else flush cur ++ split_scan (c :: before) (kind_at before c s') [c] s'
  end.

Definition _split (text : str) : list str := split_scan [] AtStart [] text.

(** *** [_wrap_chunks] *)

(** [chunk.strip() == ''] *)
Definition blank (chunk : str) : bool :=
  match strip chunk with
  | [] => true
  | _ => false
  end.

(** [_handle_long_word] with [break_long_words] set, on the chunks still
    to place (first one next) and the line under construction; it returns
    both as it leaves them. *)
Definition _handle_long_word (chunks : list str) (cur_line : list str)
    (cur_len width : Z) : list str * list str :=
  let space_left := if width <? 1 then 1 else width - cur_len in
  match chunks with
  | [] => (chunks, cur_line)
  | chunk :: rest =>
      let stop :=
        if space_left <? len chunk then
          let hyphen := rfind HYPHEN chunk space_left in
          if (0 <? hyphen)
             && existsb (fun c => negb (c =? HYPHEN)%N) (slice_to chunk hyphen)
          then hyphen + 1
          else space_left
        else space_left in
      (slice_from chunk stop :: rest, cur_line ++ [slice_to chunk stop])
  end.

(** The inner loop: chunks move to the line while they fit. *)
Fixpoint take_fitting (width : Z) (cur_line : list str) (cur_len : Z)
    (chunks : list str) : list str * Z * list str :=
  match chunks with
  | [] => (cur_line, cur_len, [])
  | chunk :: rest =>
      let l := len chunk in
      if cur_len + l <=? width
      then take_fitting width (cur_line ++ [chunk]) (cur_len + l) rest
      else (cur_line, cur_len, chunks)
  end.

(** One pass of the outer loop builds one line; both indents are the
    empty string. *)
Definition wrap_line (self_width : Z) (lines chunks : list str)
  : list str * list str :=
  let indent : str := [] in
  let width := self_width - len indent in
  let chunks :=
    match chunks with
    | first :: rest =>
        if blank first && negb (len lines =? 0) then rest else chunks
    | [] => chunks
    end in
  let '(cur_line, cur_len, chunks) := take_fitting width [] 0 chunks in
  let '(chunks, cur_line) :=
    match chunks with
    | next :: _ =>
        if width <? len next
        then _handle_long_word chunks cur_line cur_len width
        else (chunks, cur_line)
    | [] => (chunks, cur_line)
    end in
  let cur_line :=
    match rev cur_line with
    | last_chunk :: _ => if blank last_chunk then removelast cur_line else cur_line
    | [] => cur_line
    end in
  match cur_line with
  | [] => (lines, chunks)
  | _ => (lines ++ [indent ++ concat cur_line], chunks)
  end.

Fixpoint wrap_loop (fuel : nat) (self_width : Z) (lines chunks : list str)
  : outcome (list str) :=
  match chunks with
  | [] => Returns lines
  | _ =>
      match fuel with
      | O => OutOfFuel
      | S fuel' =>
          let '(lines, chunks) := wrap_line self_width lines chunks in
          wrap_loop fuel' self_width lines chunks
      end
  end.

(** Each pass of the loop takes at least one character off the chunks, so
    their total length bounds the number of passes. *)
Definition total_length (chunks : list str) : nat := length (concat chunks).

Definition _wrap_chunks (self_width : Z) (chunks : list str)
  : outcome (list str) :=
  if self_width <=? 0 then Raises ValueError
  else wrap_loop (S (total_length chunks)) self_width [] chunks.

Definition wrap (text : str) (width : Z) : outcome (list str) :=
  _wrap_chunks width (_split (_munge_whitespace text)).

(** [textwrap.fill(text, width=width, break_long_words=True,
    break_on_hyphens=True)]. *)
Definition fill (text : str) (width : Z) : outcome str :=
  lines <- wrap text width ;;
  Returns (join [LF] lines).

End Wrapper.

End Textwrap.

(** ** [wrap_text_for_terminal] *)

Section Reflow.

Variable ucd : unicode_db.

(** The box-drawing characters the helper looks for: U+2502, U+2500,
    U+250C, U+2510, U+2514, U+2518. *)
Definition VBAR : char := 9474%N.
Definition HBAR : char := 9472%N.
Definition CORNER_DOWN_RIGHT : char := 9484%N.
Definition CORNER_DOWN_LEFT : char := 9488%N.
Definition CORNER_UP_RIGHT : char := 9492%N.
Definition CORNER_UP_LEFT : char := 9496%N.

Definition box_drawing : list char :=
  [VBAR; HBAR; CORNER_DOWN_RIGHT; CORNER_DOWN_LEFT; CORNER_UP_RIGHT;
   CORNER_UP_LEFT].

(** The width the helper works with: the argument, or, when it is [None],
    what it derives from the column count [get_terminal_size] reports. *)
Definition effective_width (width : option Z) (terminal_width : Z) : Z :=
  match width with
  | Some w => w
  | None => Z.max 50 (terminal_width - 15)
  end.

(** The test that sends the whole text to the table branch. *)
Definition has_table_chars (text : str) : bool :=
  contains VBAR text || contains HBAR text || contains CORNER_DOWN_RIGHT text
  || contains CORNER_DOWN_LEFT text || contains CORNER_UP_RIGHT text
  || contains CORNER_UP_LEFT text.

(** *** The table branch *)

(** The loop over the cells of one long line, from the cells left, the
    line being assembled and the lines emitted so far; the end of the list
    is the flush after the loop.  [i < len(parts) - 1] holds when a cell
    follows. *)
Fixpoint reassemble_cells (width : Z) (parts : list str) (current_line : str)
    (wrapped_lines : list str) : list str :=
  match parts with
  | [] =>
      match current_line with
      | [] => wrapped_lines
      | _ => wrapped_lines ++ [current_line]
      end
  | part :: rest =>
      let cell := part ++ match rest with [] => [] | _ => [VBAR] end in
      let test_line := current_line ++ cell in
      if len test_line <=? width
      then reassemble_cells width rest test_line wrapped_lines
      else
        reassemble_cells width rest cell
          match current_line with
          | [] => wrapped_lines
          | _ => wrapped_lines ++ [current_line]
          end
  end.

(** The cells the loop works with: each part with the separator put back,
    the last part without. *)
Fixpoint cells (parts : list str) : list str :=
  match parts with
  | [] => []
  | part :: rest =>
      (part ++ match rest with [] => [] | _ => [VBAR] end) :: cells rest
  end.

(** What one line of a table text adds to [wrapped_lines]. *)
Definition wrap_table_line (width : Z) (line : str) : outcome (list str) :=
  if len line <=? width then Returns [line]
  else if contains VBAR line
  then Returns (reassemble_cells width (split line [VBAR]) [] [])
  else
    wrapped <- Textwrap.fill ucd line width ;;
    Returns [wrapped].

Definition wrap_table (width : Z) (text : str) : outcome str :=
  wrapped_lines <- for_each (wrap_table_line width) (split text [LF]) [] ;;
  Returns (join [LF] wrapped_lines).

(** *** The paragraph branch *)

(** The test for a code block. *)
Definition is_code_block (paragraph : str) : bool :=
  startswith (strip paragraph) (lit "```")
  || startswith (strip paragraph) (lit "    ")
  || startswith (strip paragraph) [TAB].

(** The two ways a long line of a code block is broken. *)
Definition fill_indented (indent_str content : str) (content_width : Z)
  : outcome (list str) :=
  wrapped <- Textwrap.fill ucd content content_width ;;
  Returns (map (fun wrapped_line => indent_str ++ wrapped_line)
               (split wrapped [LF])).

Definition hard_cut (width : Z) (line : str) : list str :=
  [slice_to line width]
  ++ (if width <? len line then [slice_from line width] else []).

(** What one line of a code block adds to [wrapped_lines]. *)
Definition wrap_code_line (width : Z) (line : str) : outcome (list str) :=
  if len line <=? width then Returns [line]
  else
    let indent := len line - len (lstrip line) in
    let indent_str := slice_to line indent in
    let content := slice_from line indent in
    let content_width := width - indent in
    if 20 <? content_width
    then fill_indented indent_str content content_width
    else Returns (hard_cut width line).

(** What one line of regular text adds to [wrapped_lines]. *)
Definition wrap_prose_line (width : Z) (line : str) : outcome (list str) :=
  if len (strip line) =? 0 then Returns [[]]
  else if len line <=? width then Returns [line]
  else
    wrapped <- Textwrap.fill ucd line width ;;
    Returns [wrapped].

Definition wrap_code_block (width : Z) (paragraph : str) : outcome str :=
  wrapped_lines <- for_each (wrap_code_line width) (split paragraph [LF]) [] ;;
  Returns (join [LF] wrapped_lines).

Definition wrap_prose (width : Z) (paragraph : str) : outcome str :=
  wrapped_lines <- for_each (wrap_prose_line width) (split paragraph [LF]) [] ;;
  Returns (join [LF] wrapped_lines).

(** What one paragraph adds to [wrapped_paragraphs]. *)
Definition wrap_paragraph (width : Z) (paragraph : str) : outcome (list str) :=
  wrapped <- (if is_code_block paragraph
              then wrap_code_block width paragraph
              else wrap_prose width paragraph) ;;
  Returns [wrapped].

Definition wrap_paragraphs (width : Z) (text : str) : outcome str :=
  wrapped_paragraphs <-
    for_each (wrap_paragraph width) (split text [LF; LF]) [] ;;
  Returns (join [LF; LF] wrapped_paragraphs).

(** The helper.  [terminal_width] is the column count of the terminal,
    read only when [width] is [None]. *)
Definition wrap_text_for_terminal (terminal_width : Z) (text : str)
    (width : option Z) : outcome str :=
  let width := effective_width width terminal_width in
  if has_table_chars text
  then wrap_table width text
  else wrap_paragraphs width text.

End Reflow.

(** The tables with no alphanumeric character outside ASCII.  They agree
    with the Unicode database on ASCII text and on the box-drawing
    characters, which are neither alphanumeric nor decimal: the examples
    below are run with them. *)
Definition ascii_db : unicode_db :=
  {| uc_isalnum := fun _ => false; uc_isdecimal := fun _ => false |}.

(** ** The other helpers of the client

    The helpers below read the terminal, the keyboard or a child process.
    What they read is an argument of the model, and what they compute
    from it is the model's result. *)

(** More of Python's strings and lists. *)

Fixpoint str_eqb (a b : str) : bool :=
  match a, b with
  | [], [] => true
  | x :: a', y :: b' => (x =? y)%N && str_eqb a' b'
  | _, _ => false
  end.

(** A line boundary of [str.splitlines]: line feed, vertical tab, form
    feed, carriage return, the three information separators, next line,
    line separator and paragraph separator. *)
Definition is_linebreak (c : char) : bool :=
  (((10 <=? c) && (c <=? 13)) || ((28 <=? c) && (c <=? 30))
   || (c =? 133) || (c =? 8232) || (c =? 8233))%N.

(** [s.splitlines()]: a carriage return followed by a line feed is one
    boundary ([after_cr] remembers the carriage return), and the end of
    the string closes a line only if it has characters. *)
Fixpoint splitlines_from (after_cr : bool) (cur : str) (s : str) : list str :=
  match s with
  | [] =>
      match cur with
      | [] => []
      | _ => [cur]
      end
  | c :: s' =>
      if after_cr && (c =? LF)%N then splitlines_from false cur s'
      else if is_linebreak c
      then cur :: splitlines_from (c =? CR)%N [] s'
      else splitlines_from false (cur ++ [c]) s'
  end.

Definition splitlines (s : str) : list str := splitlines_from false [] s.

(** [s.split()] with no separator: the runs of characters between
    whitespace, none of them empty. *)
Fixpoint split_whitespace_from (cur : str) (s : str) : list str :=
  match s with
  | [] =>
      match cur with
      | [] => []
      | _ => [cur]
      end
  | c :: s' =>
      if isspace c
      then match cur with
           | [] => []
           | _ => [cur]
           end ++ split_whitespace_from [] s'
      else split_whitespace_from (cur ++ [c]) s'
  end.

Definition split_whitespace (s : str) : list str := split_whitespace_from [] s.

(** [s[i:j]]. *)
Definition slice {A : Type} (s : list A) (i j : Z) : list A :=
  firstn (slice_index (length s) j - slice_index (length s) i)
         (skipn (slice_index (length s) i) s).

(** The exceptions of the helpers, and the result of a call that may
    raise one. *)
Inductive error : Type :=
| KeyError (key : str)
| IndexError
| EOFError.

Inductive result (A : Type) : Type :=
| Ok (a : A)
| Err (e : error).

Arguments Ok {A} a.
Arguments Err {A} e.

Definition and_then {A B : Type} (m : result A) (k : A -> result B) : result B :=
  match m with
  | Ok a => k a
  | Err e => Err e
  end.

Notation "x <-- m ;; k" := (and_then m (fun x => k))
  (at level 61, m at next level, right associativity).

(** [l[i]] for a list and an index that is not negative. *)
Definition getindex {A : Type} (l : list A) (i : nat) : result A :=
  match nth_error l i with
  | Some a => Ok a
  | None => Err IndexError
  end.

(** *** Messages

    A message is a dictionary from strings to strings, as every message
    the client builds is ([{'role': ..., 'content': ...}]), kept as the
    list of its items in insertion order. *)

Definition dict : Type := list (str * str).

(** [d[key]]. *)
Fixpoint getitem (d : dict) (key : str) : result str :=
  match d with
  | [] => Err (KeyError key)
  | (k, v) :: d' => if str_eqb k key then Ok v else getitem d' key
  end.

(** [d[key] = value]: the item of an existing key is replaced where it
    is, a new key is added at the end. *)
Fixpoint setitem (d : dict) (key value : str) : dict :=
  match d with
  | [] => [(key, value)]
  | (k, v) :: d' =>
      if str_eqb k key then (k, value) :: d' else (k, v) :: setitem d' key value
  end.

(** *** [sanitize_conversation_history] *)

Definition valid_roles : list str :=
  [lit "user"; lit "assistant"; lit "system"; lit "tool"].

(** [x in l] for a list of strings. *)
Definition str_in (x : str) (l : list str) : bool := existsb (str_eqb x) l.

(** The body of the loop: the copy of the message, with its role
    normalised. *)
Definition sanitize_message (message : dict) : result dict :=
  let sanitized_message := message in
  role <-- getitem sanitized_message (lit "role") ;;
  if negb (str_in role valid_roles) then
    role <-- getitem sanitized_message (lit "role") ;;
    if str_eqb role (lit "user")
    then Ok (setitem sanitized_message (lit "role") (lit "user"))
    else Ok (setitem sanitized_message (lit "role") (lit "assistant"))
  else Ok sanitized_message.

Fixpoint sanitize_loop (conversation_history sanitized_history : list dict)
  : result (list dict) :=
  match conversation_history with
  | [] => Ok sanitized_history
  | message :: rest =>
      sanitized_message <-- sanitize_message message ;;
      sanitize_loop rest (sanitized_history ++ [sanitized_message])
  end.

Definition sanitize_conversation_history (conversation_history : list dict)
    (selected_model : str) : result (list dict) :=
  sanitize_loop conversation_history [].

(** The messages the chat loop appends to the history: the user's input
    and the model's response. *)
Definition user_message (user_input : str) : dict :=
  [(lit "role", lit "user"); (lit "content", user_input)].

Definition assistant_message (full_response : str) : dict :=
  [(lit "role", lit "assistant"); (lit "content", full_response)].

(** *** [get_available_models] *)

(** An entry of the list of models: [{'name': ..., 'size': ...}]. *)
Record model_entry : Type := {
  name : str;
  size : str
}.

(** The child process [ollama list] once it has ended: its return code
    and its standard output as text. *)
Record completed_process : Type := {
  returncode : Z;
  stdout : str
}.

(** The body of the loop over the lines of the output. *)
Definition parse_model_line (model : str) : result (list model_entry) :=
  match strip model with
  | [] => Ok []
  | _ =>
      let parts := split_whitespace model in
      first <-- getindex parts 0 ;;
      Ok [{| name := first;
             size := if 3 <? len parts
                     then join [SPACE] (slice parts 2 4)
                     else lit "N/A" |}]
  end.

Fixpoint parse_models (models : list str) (parsed_models : list model_entry)
  : result (list model_entry) :=
  match models with
  | [] => Ok parsed_models
  | model :: rest =>
      entries <-- parse_model_line model ;;
      parse_models rest (parsed_models ++ entries)
  end.

(** [subprocess.run] with [check=True] raises [CalledProcessError] on a
    return code other than zero, which the helper catches. *)
Definition get_available_models (run : completed_process)
  : result (list model_entry) :=
  if returncode run =? 0
  then parse_models (slice_from (splitlines (stdout run)) 1) []
  else Ok [].

(** *** [get_multi_line_input] *)

(** The loop over the lines the keyboard gives: [stdin] holds the lines
    still to come, each as [input()] returns it, and [input()] raises
    [EOFError] when there is none.  The result is the text and the lines
    left unread. *)
Fixpoint read_multi_line (stdin : list str) (lines : list str)
  : result (str * list str) :=
  match stdin with
  | [] => Err EOFError
  | line :: rest =>
      if str_eqb (strip line) (lit "/multi-end")
      then Ok (join [LF] lines, rest)
      else read_multi_line rest (lines ++ [line])
  end.

Definition get_multi_line_input (stdin : list str) : result (str * list str) :=
  read_multi_line stdin [].

(** *** [view_past_chats]: the preview of a chat

    The fourth cell of a row of the table of saved chats, from the
    conversation of the chat: [chat['conversation'][0]['content'][:50] +
    '...' if chat['conversation'] else "N/A"]. *)
Definition chat_preview (conversation : list dict) : result str :=
  if 0 <? len conversation then
    first <-- getindex conversation 0 ;;
    content <-- getitem first (lit "content") ;;
    Ok (slice_to content 50 ++ lit "...")
  else Ok (lit "N/A").

(** *** [pull_model]: the identifier of the model to pull

    From the two answers of the user: the name as typed, and the
    parameter stripped, or 'latest' when nothing is left of it. *)
Definition full_model (model_name model_size : str) : str :=
  let model_size :=
    match strip model_size with
    | [] => lit "latest"
    | _ => strip model_size
    end in
  model_name ++ lit ":" ++ model_size.

(** *** [start_chat]: the choice of a model

    [l[i]] for any integer: a negative index counts from the end. *)
Definition getindex_z {A : Type} (l : list A) (i : Z) : result A :=
  let i := if i <? 0 then i + len l else i in
  if (i <? 0) || (len l <=? i) then Err IndexError
  else getindex l (Z.to_nat i).

(** What the menu does with the number typed: the name of the model
    chosen, or nothing when the number is refused and asked again. *)
Definition choose_model (models : list model_entry) (choice_num : Z)
  : result (option str) :=
  if (1 <=? choice_num) && (choice_num <=? len models) then
    entry <-- getindex_z models (choice_num - 1) ;;
    Ok (Some (name entry))
  else Ok None.

(** *** [format_markdown_for_terminal] *)

(** The text the helper hands to the Markdown renderer. *)
Definition format_markdown_for_terminal (ucd : unicode_db)
    (terminal_width : Z) (markdown_text : str) : outcome str :=
  let safe_width := Z.max 50 (terminal_width - 15) in
  wrap_text_for_terminal ucd terminal_width markdown_text (Some safe_width).

(** ** Vocabulary of the properties *)

(** No line of [text] is longer than [width]. *)
Definition fits (width : Z) (text : str) : Prop :=
  Forall (fun line => len line <= width) (split text [LF]).

(** A line of whitespace and nothing else, at least one character. *)
Definition whitespace_only (line : str) : Prop :=
  line <> [] /\ forallb isspace line = true.

(** The whitespace-only lines of [text], if any, are in a table text or
    in code blocks: the paragraphs handled as regular text have none. *)
Definition prose_free_of_whitespace_lines (text : str) : Prop :=
  has_table_chars text = false ->
  Forall (fun paragraph =>
            is_code_block paragraph = false ->
            Forall (fun line => ~ whitespace_only line)
                   (split paragraph [LF]))
         (split text [LF; LF]).

(** No long line of a code block of [text] is indented so deep that it
    is cut rather than filled. *)
Definition free_of_hard_cuts (width : Z) (text : str) : Prop :=
  Forall (fun paragraph =>
            is_code_block paragraph = true ->
            Forall (fun line =>
                      width < len line ->
                      20 < width - (len line - len (lstrip line)))
                   (split paragraph [LF]))
         (split text [LF; LF]).

(** Some line of [text] is handed to [textwrap.fill] at a [width] of 20
    or less (where no line of a code block is): a line longer than the
    width and without separator in a table text, or a line longer than
    the width with something else than whitespace in a paragraph of
    regular text. *)
Definition needs_word_fill (width : Z) (text : str) : Prop :=
  if has_table_chars text
  then Exists (fun line => width < len line /\ contains VBAR line = false)
              (split text [LF])
  else Exists (fun paragraph =>
                 is_code_block paragraph = false
                 /\ Exists (fun line =>
                              forallb isspace line = false
                              /\ width < len line)
                           (split paragraph [LF]))
              (split text [LF; LF]).

(** The message has a role, one of the four that are valid. *)
Definition has_valid_role (message : dict) : Prop :=
  exists role, getitem message (lit "role") = Ok role /\ In role valid_roles.

(** A field of a line: at least one character, none of them whitespace. *)
Definition is_field (f : str) : Prop :=
  f <> [] /\ forallb (fun c => negb (isspace c)) f = true.

(** An entry as the list of models holds them: the name is a field, and
    the size is 'N/A' or two fields with a space between them. *)
Definition well_formed (entry : model_entry) : Prop :=
  is_field (name entry)
  /\ (size entry = lit "N/A"
      \/ exists number unit_,
           is_field number /\ is_field unit_
           /\ size entry = number ++ [SPACE] ++ unit_).

(** The line has something else than whitespace. *)
Definition nonblank (line : str) : bool := negb (forallb isspace line).

(** The line ends the multi-line input. *)
Definition ends_input (line : str) : Prop := strip line = lit "/multi-end".

(** The characters of [text] that are not whitespace, in order. *)
Definition nonspace (text : str) : str :=
  filter (fun c => negb (isspace c)) text.

(** * Properties *)

(** ** Python strings *)

Section StringFacts.

Lemma len_nonneg {A : Type} (s : list A) : 0 <= len s.
Proof. unfold len. lia. Qed.

Lemma len_app {A : Type} (s t : list A) : len (s ++ t) = len s + len t.
Proof. unfold len. rewrite length_app. lia. Qed.

Lemma len_nil_iff {A : Type} (s : list A) : len s = 0 <-> s = [].
Proof.
  unfold len. destruct s; simpl; split; intro H; try reflexivity;
    try discriminate; lia.
Qed.

Lemma startswith_split (s p : str) :
  startswith s p = true -> exists t, s = p ++ t.
Proof.
  revert s. induction p as [|x p IH]; intros s H.
  - exists s. reflexivity.
  - destruct s as [|c s]; simpl in H; [discriminate|].
    apply andb_prop in H. destruct H as [Hc Hs].
    apply N.eqb_eq in Hc. subst c.
    destruct (IH _ Hs) as [t ->]. exists t. reflexivity.
Qed.

Lemma startswith_app (p t : str) : startswith (p ++ t) p = true.
Proof.
  induction p as [|x p IH]; simpl; [now destruct t|].
  rewrite N.eqb_refl. exact IH.
Qed.

(** *** [lstrip], [strip] *)

Lemma lstrip_decompose (s : str) :
  exists ws, s = ws ++ lstrip s /\ forallb isspace ws = true.
Proof.
  induction s as [|c s [ws [E F]]]; simpl.
  - exists []. split; reflexivity.
  - destruct (isspace c) eqn:Hc.
    + exists (c :: ws). simpl. rewrite Hc, F. split; [congruence|reflexivity].
    + exists []. split; reflexivity.
Qed.

Lemma lstrip_head (s : str) :
  match lstrip s with
  | c :: _ => isspace c = false
  | [] => True
  end.
Proof.
  induction s as [|c s IH]; simpl; [exact I|].
  destruct (isspace c) eqn:Hc; [exact IH|exact Hc].
Qed.

Lemma lstrip_nil_iff (s : str) : lstrip s = [] <-> forallb isspace s = true.
Proof.
  induction s as [|c s IH]; simpl; [tauto|].
  destruct (isspace c); simpl; [exact IH|].
  split; discriminate.
Qed.

Lemma rstrip_prefix (s : str) : exists t, s = rstrip s ++ t.
Proof.
  unfold rstrip. destruct (lstrip_decompose (rev s)) as [ws [E _]].
  exists (rev ws). rewrite <- rev_app_distr, <- E. symmetry. apply rev_involutive.
Qed.

Lemma forallb_rev {A : Type} (f : A -> bool) (l : list A) :
  forallb f (rev l) = forallb f l.
Proof.
  induction l as [|a l IH]; simpl; [reflexivity|].
  rewrite forallb_app, IH. simpl. rewrite andb_true_r. apply andb_comm.
Qed.

Lemma strip_head (s : str) :
  match strip s with
  | c :: _ => isspace c = false
  | [] => True
  end.
Proof.
  unfold strip. pose proof (lstrip_head s) as H.
  destruct (rstrip_prefix (lstrip s)) as [t E].
  destruct (rstrip (lstrip s)) as [|c r]; [exact I|].
  rewrite E in H. exact H.
Qed.

Lemma strip_nil_iff (s : str) : strip s = [] <-> forallb isspace s = true.
Proof.
  rewrite <- lstrip_nil_iff. unfold strip, rstrip. split; intro H.
  - assert (R : lstrip (rev (lstrip s)) = []).
    { destruct (lstrip (rev (lstrip s))) as [|c l]; [reflexivity|].
      simpl in H. apply app_eq_nil in H. destruct H; discriminate. }
    apply lstrip_nil_iff in R. rewrite forallb_rev in R.
    pose proof (lstrip_head s) as Hh.
    destruct (lstrip s) as [|c t]; [reflexivity|].
    simpl in R. rewrite Hh in R. discriminate.
  - rewrite H. reflexivity.
Qed.

(** The leading whitespace of a line, as the code block branch cuts it
    off: [line[:indent]] and [line[indent:]] for
    [indent = len(line) - len(line.lstrip())]. *)
Lemma indent_cut (line : str) :
  let indent := len line - len (lstrip line) in
  slice_to line indent ++ slice_from line indent = line
  /\ slice_from line indent = lstrip line
  /\ forallb isspace (slice_to line indent) = true
  /\ len (slice_to line indent) = indent.
Proof.
  destruct (lstrip_decompose line) as [ws [E F]].
  cbv zeta. remember (lstrip line) as t eqn:Ht. clear Ht. subst line.
  unfold slice_to, slice_from, slice_index, len.
  rewrite length_app.
  replace (Z.of_nat (length ws + length t) - Z.of_nat (length t))
    with (Z.of_nat (length ws)) by lia.
  destruct (Z.ltb_spec (Z.of_nat (length ws)) 0) as [Hn|_]; [lia|].
  rewrite Nat2Z.id, Nat.min_l by lia.
  rewrite skipn_app, firstn_app, Nat.sub_diag, firstn_all, skipn_all.
  simpl. rewrite app_nil_r. auto.
Qed.

(** *** Slices *)

Lemma slice_to_from {A : Type} (s : list A) (i : Z) :
  slice_to s i ++ slice_from s i = s.
Proof. apply firstn_skipn. Qed.

Lemma slice_to_len {A : Type} (s : list A) (i : Z) :
  0 <= i -> len (slice_to s i) = Z.min i (len s).
Proof.
  intro Hi. unfold slice_to, slice_index, len.
  destruct (Z.ltb_spec i 0); [lia|].
  rewrite length_firstn. lia.
Qed.

Lemma slice_from_len {A : Type} (s : list A) (i : Z) :
  0 <= i -> len (slice_from s i) = len s - Z.min i (len s).
Proof.
  intro Hi. unfold slice_from, slice_index, len.
  destruct (Z.ltb_spec i 0); [lia|].
  rewrite length_skipn. lia.
Qed.

Lemma rfind_at_bounds (c : char) (s : str) (i : Z) :
  rfind_at c s i = -1 \/ (i <= rfind_at c s i < i + len s).
Proof.
  revert i. induction s as [|x s IH]; intro i; simpl; [now left|].
  unfold len in *. simpl length. rewrite Nat2Z.inj_succ.
  destruct (IH (i + 1)) as [E|B].
  - rewrite E. simpl. destruct (x =? c)%N; [right; lia|now left].
  - destruct (Z.leb_spec 0 (rfind_at c s (i + 1))); [right; lia|].
    destruct (x =? c)%N; [right; lia|now left].
Qed.

Lemma rfind_bound (c : char) (s : str) (stop : Z) :
  0 <= stop -> rfind c s stop < stop.
Proof.
  intro H. unfold rfind.
  pose proof (slice_to_len s stop H) as L.
  destruct (rfind_at_bounds c (slice_to s stop) 0) as [E|B]; lia.
Qed.

End StringFacts.

(** ** [split] and [join] *)

Section SplitJoin.

Lemma split_from_nonempty (sep : str) (k : nat) (s : str) :
  split_from sep k s <> [].
Proof.
  revert k. induction s as [|c s IH]; intro k; cbn [split_from];
    [discriminate|].
  destruct k; [|apply IH].
  destruct (startswith (c :: s) sep); [discriminate|].
  unfold cons_head. destruct (split_from sep 0 s); discriminate.
Qed.

Lemma split_nonempty (s sep : str) : split s sep <> [].
Proof. apply split_from_nonempty. Qed.

(** Passing over the rest of an occurrence of the separator. *)
Lemma split_from_skip (sep pre s : str) :
  split_from sep (length pre) (pre ++ s) = split_from sep 0 s.
Proof. induction pre as [|x pre IH]; simpl; [reflexivity|exact IH]. Qed.

Lemma split_at_sep (sep s : str) :
  sep <> [] -> split (sep ++ s) sep = [] :: split s sep.
Proof.
  intro Hs. destruct sep as [|x sep]; [congruence|].
  unfold split. change ((x :: sep) ++ s) with (x :: (sep ++ s)).
  cbn [split_from].
  change (x :: sep ++ s) with ((x :: sep) ++ s). rewrite startswith_app.
  replace (length (x :: sep) - 1)%nat with (length sep) by (simpl; lia).
  now rewrite split_from_skip.
Qed.

Lemma split_off_sep (sep : str) (c : char) (s : str) :
  startswith (c :: s) sep = false ->
  split (c :: s) sep = cons_head c (split s sep).
Proof. intro H. unfold split. cbn [split_from]. now rewrite H. Qed.

Lemma join_cons (sep p : str) (rest : list str) :
  rest <> [] -> join sep (p :: rest) = p ++ sep ++ join sep rest.
Proof. destruct rest; [congruence|reflexivity]. Qed.

Lemma join_cons_head (sep : str) (c : char) (parts : list str) :
  parts <> [] -> join sep (cons_head c parts) = c :: join sep parts.
Proof.
  destruct parts as [|h [|h' t]]; [congruence| |]; reflexivity.
Qed.

(** Joining the pieces with the separator gives the string back. *)
Lemma join_split (s sep : str) : sep <> [] -> join sep (split s sep) = s.
Proof.
  intro Hs.
  induction s as [s IH] using (induction_ltof1 _ (@length char)).
  unfold ltof in IH. destruct s as [|c s]; [reflexivity|].
  destruct (startswith (c :: s) sep) eqn:Hp.
  - destruct (startswith_split _ _ Hp) as [t E]. rewrite E.
    rewrite split_at_sep by exact Hs.
    rewrite join_cons by apply split_nonempty.
    simpl. rewrite IH; [reflexivity|].
    rewrite E, length_app. destruct sep; [congruence|simpl; lia].
  - rewrite split_off_sep by exact Hp.
    rewrite join_cons_head by apply split_nonempty.
    rewrite IH; [reflexivity|simpl; lia].
Qed.

(** *** One-character separators *)

Lemma split_char_cons (c x : char) (s : str) :
  split (x :: s) [c]
  = if (x =? c)%N then [] :: split s [c] else cons_head x (split s [c]).
Proof.
  unfold split. cbn [split_from startswith]. simpl length.
  rewrite andb_comm. destruct s; reflexivity.
Qed.

Lemma split_char_app (c : char) (a b : str) :
  split (a ++ c :: b) [c] = split a [c] ++ split b [c].
Proof.
  induction a as [|x a IH].
  - simpl app at 1. rewrite split_char_cons, N.eqb_refl. reflexivity.
  - change ((x :: a) ++ c :: b) with (x :: (a ++ c :: b)).
    rewrite !split_char_cons, IH.
    destruct (x =? c)%N; [reflexivity|].
    pose proof (split_nonempty a [c]) as Hne.
    destruct (split a [c]); [congruence|reflexivity].
Qed.

(** A piece is no longer than the string. *)
Lemma split_char_piece_len (c : char) (s l : str) :
  In l (split s [c]) -> len l <= len s.
Proof.
  revert l. induction s as [|x s IH]; intros l H.
  - destruct H as [<-|[]]. unfold len. simpl. lia.
  - rewrite split_char_cons in H. unfold len in *. simpl length.
    destruct (x =? c)%N.
    + destruct H as [<-|H]; [simpl; lia|]. specialize (IH _ H). lia.
    + pose proof (split_nonempty s [c]) as Hne.
      destruct (split s [c]) as [|h t]; [congruence|].
      destruct H as [<-|H].
      * specialize (IH h (or_introl eq_refl)). simpl. lia.
      * specialize (IH l (or_intror H)). lia.
Qed.

(** The lines of pieces joined with line feeds are the lines of the
    pieces, with an empty line for each further line feed of the
    separator. *)
Lemma lines_of_join (k : nat) (parts : list str) (l : str) :
  In l (split (join (repeat LF (S k)) parts) [LF]) ->
  l = [] \/ exists p, In p parts /\ In l (split p [LF]).
Proof.
  induction parts as [|p rest IH]; intro H.
  - destruct H as [<-|[]]. now left.
  - destruct rest as [|q rest].
    + right. exists p. split; [now left|exact H].
    + rewrite join_cons in H by discriminate.
      change (repeat LF (S k) ++ join (repeat LF (S k)) (q :: rest))
        with (LF :: (repeat LF k ++ join (repeat LF (S k)) (q :: rest))) in H.
      rewrite split_char_app in H. apply in_app_or in H.
      destruct H as [H|H]; [right; exists p; split; [now left|exact H]|].
      assert (G : forall j, In l (split (repeat LF j ++ join (repeat LF (S k)) (q :: rest)) [LF]) ->
                  l = [] \/ exists p0, In p0 (q :: rest) /\ In l (split p0 [LF])).
      { induction j as [|j IHj]; intro Hj; [exact (IH Hj)|].
        simpl repeat in Hj. simpl app in Hj.
        rewrite split_char_cons, N.eqb_refl in Hj.
        destruct Hj as [<-|Hj]; [now left|exact (IHj Hj)]. }
      destruct (G k H) as [E|[p0 [I0 I1]]]; [now left|].
      right. exists p0. split; [now right|exact I1].
Qed.

Lemma lines_in_join (k : nat) (parts : list str) (p l : str) :
  In p parts -> In l (split p [LF]) ->
  In l (split (join (repeat LF (S k)) parts) [LF]).
Proof.
  induction parts as [|q rest IH]; intros Hp Hl; [destruct Hp|].
  destruct rest as [|q' rest].
  - destruct Hp as [->|[]]. exact Hl.
  - rewrite join_cons by discriminate.
    change (repeat LF (S k) ++ join (repeat LF (S k)) (q' :: rest))
      with (LF :: (repeat LF k ++ join (repeat LF (S k)) (q' :: rest))).
    rewrite split_char_app. apply in_or_app.
    destruct Hp as [->|Hp]; [now left|right].
    specialize (IH Hp Hl).
    generalize dependent (join (repeat LF (S k)) (q' :: rest)).
    intros t Ht. clear - Ht.
    induction k as [|j IHj]; [exact Ht|].
    simpl repeat. simpl app. rewrite split_char_cons, N.eqb_refl.
    right. exact IHj.
Qed.

(** The lines of the paragraphs of a text are lines of the text. *)
Lemma paragraph_lines (text p l : str) :
  In p (split text [LF; LF]) -> In l (split p [LF]) -> In l (split text [LF]).
Proof.
  intros Hp Hl.
  rewrite <- (join_split text [LF; LF]) at 1 by discriminate.
  exact (lines_in_join 1 _ _ _ Hp Hl).
Qed.

End SplitJoin.

(** ** [textwrap]: every call at a positive width returns lines within
    the width *)

Section WrapFacts.

Variable ucd : unicode_db.

Lemma flush_nonempty (cur : str) : Forall nonempty (Textwrap.flush cur).
Proof.
  destruct cur; simpl; constructor; [discriminate|constructor].
Qed.

(** [_split] leaves no empty chunk. *)
Lemma split_scan_nonempty (s before : str) (kind : Textwrap.chunk_kind)
    (cur : str) :
  Forall nonempty (Textwrap.split_scan ucd before kind cur s).
Proof.
  revert before kind cur.
  induction s as [|c s IH]; intros before kind cur; cbn [Textwrap.split_scan].
  - apply flush_nonempty.
  - destruct (Textwrap.continues ucd before kind c s).
    + destruct (match kind with
                | Textwrap.InWord => Textwrap.hyphen_break ucd before c s
                | _ => false
                end).
      * constructor; [|apply IH]. unfold nonempty. now destruct cur.
      * apply IH.
    + apply Forall_app. split; [apply flush_nonempty|apply IH].
Qed.

Lemma len_concat_cons (chunk : str) (chunks : list str) :
  len (concat (chunk :: chunks)) = len chunk + len (concat chunks).
Proof. simpl. apply len_app. Qed.

Lemma len_pos (chunk : str) : nonempty chunk -> 0 < len chunk.
Proof. unfold nonempty, len. destruct chunk; [congruence|simpl; lia]. Qed.

Ltac chunk_lengths :=
  repeat match goal with
         | H : nonempty ?c |- _ => apply len_pos in H
         end.

(** The inner loop moves a prefix of the chunks to the line, keeps the
    line within the width, and stops at a chunk that does not fit. *)
Lemma take_fitting_spec (width : Z) (chunks cur_line : list str) (cur_len : Z)
    (cl : list str) (n : Z) (rest : list str) :
  Textwrap.take_fitting width cur_line cur_len chunks = (cl, n, rest) ->
  exists taken,
    chunks = taken ++ rest /\ cl = cur_line ++ taken
    /\ n = cur_len + len (concat taken)
    /\ (cur_len <= width -> n <= width)
    /\ match rest with
       | next :: _ => width < n + len next
       | [] => True
       end.
Proof.
  revert cur_line cur_len.
  induction chunks as [|chunk chunks IH]; intros cur_line cur_len H;
    cbn [Textwrap.take_fitting] in H.
  - inversion H; subst. exists [].
    repeat split; rewrite ?app_nil_r; auto. unfold len; simpl; lia.
  - destruct (Z.leb_spec (cur_len + len chunk) width) as [Hfit|Hfull].
    + destruct (IH _ _ H) as [taken [E [C [N [B R]]]]].
      exists (chunk :: taken). rewrite len_concat_cons. subst chunks cl.
      rewrite <- app_assoc. repeat split; auto; lia.
    + inversion H; subst. exists [].
      repeat split; rewrite ?app_nil_r; auto. unfold len at 1; simpl; lia.
Qed.

(** Breaking a chunk longer than the width: a prefix that fits the room
    left goes to the line, and a non-empty rest stays. *)
Lemma handle_long_word_spec (chunk : str) (rest cur_line : list str)
    (cur_len width : Z) :
  1 <= width -> 0 <= cur_len <= width -> width < len chunk ->
  exists stop,
    Textwrap._handle_long_word (chunk :: rest) cur_line cur_len width
    = (slice_from chunk stop :: rest, cur_line ++ [slice_to chunk stop])
    /\ 0 <= stop <= width - cur_len
    /\ (cur_len = 0 -> 1 <= stop).
Proof.
  intros Hw Hc Hl. unfold Textwrap._handle_long_word.
  destruct (Z.ltb_spec width 1) as [?|_]; [lia|].
  destruct (Z.ltb_spec (width - cur_len) (len chunk)) as [_|?]; [|lia].
  pose proof (rfind_bound HYPHEN chunk (width - cur_len)) as Hr.
  destruct (Z.ltb_spec 0 (rfind HYPHEN chunk (width - cur_len))) as [Hh|Hh];
    cbn [andb].
  - destruct (existsb _ _); eexists; (split; [reflexivity|lia]).
  - eexists. split; [reflexivity|lia].
Qed.

Lemma len_concat_app (xs ys : list str) :
  len (concat (xs ++ ys)) = len (concat xs) + len (concat ys).
Proof. rewrite concat_app. apply len_app. Qed.

Lemma len_concat_single (x : str) : len (concat [x]) = len x.
Proof. simpl. now rewrite app_nil_r. Qed.

Lemma len_concat_removelast (xs : list str) :
  len (concat (removelast xs)) <= len (concat xs).
Proof.
  destruct xs as [|x xs] using rev_ind; [simpl; lia|].
  rewrite removelast_last, len_concat_app.
  pose proof (len_nonneg (concat [x])). lia.
Qed.

(** One pass of the outer loop: the chunks get shorter, stay non-empty,
    and at most one line is added, within the width. *)
Lemma wrap_line_spec (width : Z) (lines chunks lines' chunks' : list str) :
  1 <= width -> chunks <> [] -> Forall nonempty chunks ->
  Textwrap.wrap_line width lines chunks = (lines', chunks') ->
  Forall nonempty chunks'
  /\ len (concat chunks') < len (concat chunks)
  /\ exists new, lines' = lines ++ new /\ Forall (fun l => len l <= width) new.
Proof.
  intros Hw Hne Hall H. unfold Textwrap.wrap_line in H.
  cbv zeta in H. change (len (@nil char)) with 0 in H.
  rewrite Z.sub_0_r in H.
  set (chunks1 := match chunks with
                  | first :: rest =>
                      if Textwrap.blank first && negb (len lines =? 0)
                      then rest else chunks
                  | [] => chunks
                  end) in H.
  assert (H1 : Forall nonempty chunks1
               /\ (chunks1 = chunks \/ len (concat chunks1) < len (concat chunks))).
  { subst chunks1. destruct chunks as [|first rest]; [congruence|].
    destruct (Textwrap.blank first && negb (len lines =? 0)); [|auto].
    inversion Hall; subst. split; [assumption|right].
    rewrite len_concat_cons. chunk_lengths. lia. }
  destruct H1 as [Hall1 Hdec1]. clearbody chunks1.
  destruct (Textwrap.take_fitting width [] 0 chunks1)
    as [[cl n] chunks2] eqn:T.
  destruct (take_fitting_spec _ _ _ _ _ _ _ T) as [taken [E [C [N [B R]]]]].
  simpl in C. subst cl. specialize (B ltac:(lia)).
  change (len (concat [])) with 0 in N. rewrite Z.add_0_l in N.
  assert (Hall2 : Forall nonempty taken /\ Forall nonempty chunks2).
  { rewrite E in Hall1. now apply Forall_app in Hall1. }
  destruct Hall2 as [Hallt Hall2].
  assert (Hsum : len (concat chunks1) = n + len (concat chunks2)).
  { rewrite E, len_concat_app. lia. }
  pose proof (len_nonneg (concat taken)) as Hn0.
  (* the step that may break a long chunk *)
  assert (S3 : exists chunks3 cur_line2,
             match chunks2 with
             | next :: _ =>
                 if width <? len next
                 then Textwrap._handle_long_word chunks2 taken n width
                 else (chunks2, taken)
             | [] => (chunks2, taken)
             end = (chunks3, cur_line2)
             /\ Forall nonempty chunks3
             /\ len (concat chunks3) < len (concat chunks)
             /\ len (concat cur_line2) <= width).
  { destruct chunks2 as [|next rest2].
    - exists [], taken. repeat split; auto; try lia.
      change (len (concat [])) with 0.
      destruct Hdec1 as [->|?].
      + destruct chunks as [|c0 cs]; [congruence|]. inversion Hall; subst.
        rewrite len_concat_cons. chunk_lengths.
        pose proof (len_nonneg (concat cs)). lia.
      + pose proof (len_nonneg (concat chunks1)). lia.
    - destruct (Z.ltb_spec width (len next)) as [Hlong|Hshort].
      + destruct (handle_long_word_spec next rest2 taken n width Hw
                    ltac:(lia) Hlong) as [stop [Eh [Bs Ps]]].
        exists (slice_from next stop :: rest2), (taken ++ [slice_to next stop]).
        split; [exact Eh|].
        pose proof (slice_to_len next stop ltac:(lia)) as Lt.
        pose proof (slice_from_len next stop ltac:(lia)) as Lf.
        rewrite len_concat_cons in Hsum |- *.
        rewrite len_concat_app, len_concat_single.
        repeat split.
        * constructor; [|now inversion Hall2].
          unfold nonempty. intro Z0. rewrite Z0 in Lf.
          change (len []) with 0 in Lf. lia.
        * destruct Hdec1 as [->|?]; [|lia].
          destruct (Z.eq_dec n 0) as [Zn|Zn]; [specialize (Ps Zn)|]; lia.
        * lia.
      + exists (next :: rest2), taken. repeat split; auto; try lia.
        rewrite len_concat_cons in Hsum |- *.
        destruct Hdec1 as [E1|?]; [rewrite E1 in Hsum|]; lia. }
  destruct S3 as [chunks3 [cur_line2 [E3 [Hall3 [Hdec3 Hlen2]]]]].
  rewrite E3 in H.
  match type of H with
  | match ?x with [] => _ | _ :: _ => _ end = _ => set (cur_line3 := x) in H
  end.
  assert (Hlen3 : len (concat cur_line3) <= width).
  { subst cur_line3. destruct (rev cur_line2) as [|last_chunk ?];
      [exact Hlen2|].
    destruct (Textwrap.blank last_chunk); [|exact Hlen2].
    pose proof (len_concat_removelast cur_line2). lia. }
  clearbody cur_line3.
  destruct cur_line3 as [|c3 cs3]; inversion H; subst.
  - repeat split; auto. exists []. rewrite app_nil_r. split; auto.
  - repeat split; auto. eexists. split; [reflexivity|].
    constructor; [exact Hlen3|constructor].
Qed.

(** With one unit of fuel per character the loop runs to its end. *)
Lemma wrap_loop_spec (fuel : nat) (width : Z) (lines chunks : list str) :
  1 <= width -> len (concat chunks) < Z.of_nat fuel ->
  Forall nonempty chunks -> Forall (fun l => len l <= width) lines ->
  exists wrapped,
    Textwrap.wrap_loop fuel width lines chunks = Returns wrapped
    /\ Forall (fun l => len l <= width) wrapped.
Proof.
  intro Hw. revert lines chunks.
  induction fuel as [|fuel IH]; intros lines chunks Hf Hall Hlines.
  - pose proof (len_nonneg (concat chunks)). lia.
  - destruct chunks as [|chunk chunks]; [exists lines; split; auto|].
    cbn [Textwrap.wrap_loop].
    destruct (Textwrap.wrap_line width lines (chunk :: chunks))
      as [lines' chunks'] eqn:W.
    assert (Hne : chunk :: chunks <> []) by discriminate.
    destruct (wrap_line_spec _ _ _ _ _ Hw Hne Hall W)
      as [Hall' [Hdec [new [-> Hnew]]]].
    apply IH; [lia|exact Hall'|].
    apply Forall_app. split; assumption.
Qed.

Lemma wrap_returns (text : str) (width : Z) :
  1 <= width ->
  exists wrapped,
    Textwrap.wrap ucd text width = Returns wrapped
    /\ Forall (fun l => len l <= width) wrapped.
Proof.
  intro Hw. unfold Textwrap.wrap, Textwrap._wrap_chunks.
  destruct (Z.leb_spec width 0); [lia|].
  apply wrap_loop_spec; auto.
  - unfold Textwrap.total_length, len. lia.
  - apply split_scan_nonempty.
Qed.

Lemma wrap_raises (text : str) (width : Z) :
  width <= 0 -> Textwrap.wrap ucd text width = Raises ValueError.
Proof.
  intro Hw. unfold Textwrap.wrap, Textwrap._wrap_chunks.
  destruct (Z.leb_spec width 0); [reflexivity|lia].
Qed.

(** [fill] at a positive width returns, and no line of what it returns
    is longer than the width. *)
Lemma fill_returns (text : str) (width : Z) :
  1 <= width ->
  exists wrapped,
    Textwrap.fill ucd text width = Returns wrapped
    /\ Forall (fun l => len l <= width) (split wrapped [LF]).
Proof.
  intro Hw. destruct (wrap_returns text width Hw) as [ls [E B]].
  exists (join [LF] ls). unfold Textwrap.fill. rewrite E. split; [reflexivity|].
  apply Forall_forall. intros l Hl.
  destruct (lines_of_join 0 ls l Hl) as [->|[p [Hp Hlp]]].
  - change (len []) with 0. lia.
  - rewrite Forall_forall in B. specialize (B p Hp).
    pose proof (split_char_piece_len LF p l Hlp). lia.
Qed.

(** [fill] at a width of zero or less raises [ValueError]. *)
Lemma fill_raises (text : str) (width : Z) :
  width <= 0 -> Textwrap.fill ucd text width = Raises ValueError.
Proof. intro Hw. unfold Textwrap.fill. now rewrite wrap_raises. Qed.

(** The bound on the loop is never what ends a call. *)
Lemma fill_terminates (text : str) (width : Z) :
  Textwrap.fill ucd text width <> OutOfFuel.
Proof.
  destruct (Z.le_gt_cases width 0) as [Hw|Hw].
  - rewrite fill_raises by exact Hw. discriminate.
  - destruct (fill_returns text width ltac:(lia)) as [w [E _]].
    rewrite E. discriminate.
Qed.

End WrapFacts.

(** The example of the docstring of [_split]. *)
Example split_docstring_example :
  Textwrap._split ascii_db (lit "Look, goof-ball -- use the -b option!")
  = [lit "Look,"; lit " "; lit "goof-"; lit "ball"; lit " "; lit "--";
     lit " "; lit "use"; lit " "; lit "the"; lit " "; lit "-b"; lit " ";
     lit "option!"].
Proof. vm_compute. reflexivity. Qed.

(** A word longer than the width is broken at the width, or after a
    hyphen that comes before it. *)
Example fill_long_word_example :
  Textwrap.fill ascii_db (lit "abcdefghij") 4
  = Returns (join [LF] [lit "abcd"; lit "efgh"; lit "ij"])
  /\ Textwrap.fill ascii_db (lit "a-bcdefghij") 4
     = Returns (join [LF] [lit "a-"; lit "bcde"; lit "fghi"; lit "j"]).
Proof. split; vm_compute; reflexivity. Qed.

(** ** The loops of the helper *)

Lemma concat_singletons {B : Type} (xs : list B) :
  concat (map (fun x => [x]) xs) = xs.
Proof. induction xs as [|x xs IH]; simpl; congruence. Qed.

Section LoopFacts.

Context {A B : Type}.

Lemma for_each_returns (body : A -> outcome (list B)) (f : A -> list B)
    (xs : list A) (acc : list B) :
  (forall x, In x xs -> body x = Returns (f x)) ->
  for_each body xs acc = Returns (acc ++ concat (map f xs)).
Proof.
  revert acc. induction xs as [|x xs IH]; intros acc H; simpl.
  - now rewrite app_nil_r.
  - rewrite (H x) by now left. simpl.
    rewrite IH by (intros; apply H; now right).
    now rewrite <- app_assoc.
Qed.

Lemma for_each_total (body : A -> outcome (list B)) (xs : list A)
    (acc : list B) :
  (forall x, In x xs -> exists out, body x = Returns out) ->
  exists wrapped, for_each body xs acc = Returns wrapped.
Proof.
  revert acc. induction xs as [|x xs IH]; intros acc H; simpl.
  - now exists acc.
  - destruct (H x) as [out E]; [now left|]. rewrite E. simpl.
    apply IH. intros; apply H; now right.
Qed.

(** A property of the appended items that holds of what each pass
    appends holds of the whole list. *)
Lemma for_each_invariant (P : B -> Prop) (body : A -> outcome (list B))
    (xs : list A) (acc : list B) :
  (forall x, In x xs -> exists out, body x = Returns out /\ Forall P out) ->
  Forall P acc ->
  exists wrapped, for_each body xs acc = Returns wrapped /\ Forall P wrapped.
Proof.
  revert acc. induction xs as [|x xs IH]; intros acc H Hacc; simpl.
  - now exists acc.
  - destruct (H x) as [out [E Hout]]; [now left|]. rewrite E. simpl.
    apply IH; [intros; apply H; now right|].
    apply Forall_app. now split.
Qed.

(** The loop runs out of fuel only if its body does. *)
Lemma for_each_fuel (body : A -> outcome (list B)) (xs : list A)
    (acc : list B) :
  (forall x, In x xs -> body x <> OutOfFuel) ->
  for_each body xs acc <> OutOfFuel.
Proof.
  revert acc. induction xs as [|x xs IH]; intros acc H; simpl.
  - discriminate.
  - specialize (H x (or_introl eq_refl)) as Hx.
    destruct (body x) as [out| |]; simpl; [|discriminate|congruence].
    apply IH. intros; apply H; now right.
Qed.

End LoopFacts.

(** A loop that keeps every item as it is. *)
Lemma for_each_keeps {B : Type} (body : B -> outcome (list B)) (xs : list B) :
  (forall x, In x xs -> body x = Returns [x]) ->
  for_each body xs [] = Returns xs.
Proof.
  intro H. rewrite (for_each_returns body (fun x => [x])) by exact H.
  simpl. now rewrite concat_singletons.
Qed.

(** ** The branches of the helper *)

Section ReflowFacts.

Variable ucd : unicode_db.

Lemma contains_In (c : char) (s : str) : contains c s = true <-> In c s.
Proof.
  unfold contains. rewrite existsb_exists. split.
  - intros [x [Hx E]]. apply N.eqb_eq in E. now subst.
  - intro H. exists c. split; [exact H|apply N.eqb_refl].
Qed.

Lemma has_table_chars_iff (text : str) :
  has_table_chars text = true <-> exists c, In c box_drawing /\ In c text.
Proof.
  unfold has_table_chars, box_drawing. rewrite !orb_true_iff, !contains_In.
  split.
  - intros [[[[[H|H]|H]|H]|H]|H]; eexists; (split; [|exact H]); simpl; tauto.
  - intros [c [Hc H]]. simpl in Hc.
    repeat (destruct Hc as [<-|Hc]; [tauto|]). destruct Hc.
Qed.

(** The test for a code block looks at the stripped paragraph, which
    never starts with a space or a tab: only the fence is ever found. *)
Lemma is_code_block_fence (paragraph : str) :
  is_code_block paragraph = startswith (strip paragraph) (lit "```").
Proof.
  unfold is_code_block. pose proof (strip_head paragraph) as H.
  destruct (strip paragraph) as [|c s].
  - reflexivity.
  - assert (E1 : startswith (c :: s) (lit "    ") = false).
    { simpl. destruct (N.eqb_spec c 32); [subst; discriminate|reflexivity]. }
    assert (E2 : startswith (c :: s) [TAB] = false).
    { simpl. destruct (N.eqb_spec c TAB); [subst; discriminate|reflexivity]. }
    rewrite E1, E2, !orb_false_r. reflexivity.
Qed.

Lemma blank_line_test (line : str) :
  (len (strip line) =? 0) = true <-> forallb isspace line = true.
Proof. rewrite Z.eqb_eq, len_nil_iff. apply strip_nil_iff. Qed.

(** A text whose lines fit, and whose regular paragraphs have no
    whitespace-only line, comes back as it is. *)
Lemma reflow_fixed (width : Z) (text : str) :
  fits width text -> prose_free_of_whitespace_lines text ->
  (if has_table_chars text
   then wrap_table ucd width text
   else wrap_paragraphs ucd width text) = Returns text.
Proof.
  intros Hfit Hws. unfold fits in Hfit. rewrite Forall_forall in Hfit.
  destruct (has_table_chars text) eqn:Ht.
  - unfold wrap_table. rewrite for_each_keeps.
    + simpl. now rewrite join_split.
    + intros l Hl. unfold wrap_table_line.
      destruct (Z.leb_spec (len l) width) as [_|Hgt]; [reflexivity|].
      specialize (Hfit l Hl). lia.
  - specialize (Hws Ht). rewrite Forall_forall in Hws.
    unfold wrap_paragraphs. rewrite for_each_keeps.
    + simpl. now rewrite join_split.
    + intros p Hp. unfold wrap_paragraph.
      assert (Hlines : forall l, In l (split p [LF]) -> len l <= width).
      { intros l Hl. apply Hfit. exact (paragraph_lines text p l Hp Hl). }
      destruct (is_code_block p) eqn:Hc.
      * unfold wrap_code_block. rewrite for_each_keeps.
        -- simpl. now rewrite join_split.
        -- intros l Hl. unfold wrap_code_line.
           destruct (Z.leb_spec (len l) width) as [_|Hgt]; [reflexivity|].
           specialize (Hlines l Hl). lia.
      * specialize (Hws p Hp Hc). rewrite Forall_forall in Hws.
        unfold wrap_prose. rewrite for_each_keeps.
        -- simpl. now rewrite join_split.
        -- intros l Hl. unfold wrap_prose_line.
           destruct (len (strip l) =? 0) eqn:Hb.
           ++ apply blank_line_test in Hb.
              destruct l as [|c l]; [reflexivity|].
              exfalso. apply (Hws _ Hl). split; [discriminate|exact Hb].
           ++ destruct (Z.leb_spec (len l) width) as [_|Hgt]; [reflexivity|].
              specialize (Hlines l Hl). lia.
Qed.

End ReflowFacts.

(** * The properties of [wrap_text_for_terminal] *)

(** Evaluation of a [split] of a closed text, and the bounds on the lines
    it gives. *)
Ltac eval_split :=
  repeat match goal with
         | |- context [split ?s ?sep] =>
             let v := eval vm_compute in (split s sep) in
             change (split s sep) with v
         end.

Ltac each_item := repeat first [ apply Forall_nil | apply Forall_cons ].

Ltac closed_fits :=
  unfold fits; eval_split; each_item; vm_compute; discriminate.

Ltac no_whitespace_line :=
  let H := fresh in
  let G := fresh in
  intros [H G]; first [ now apply H | vm_compute in G; discriminate ].

Ltac closed_prose_free :=
  let C := fresh in
  intros _; eval_split; each_item; intro C;
  first [ vm_compute in C; discriminate
        | eval_split; each_item; no_whitespace_line ].

Ltac closed_free_of_hard_cuts :=
  let C := fresh in
  let L := fresh in
  unfold free_of_hard_cuts; simpl effective_width; eval_split; each_item;
  intro C;
  first [ vm_compute in C; discriminate
        | eval_split; each_item; intro L;
          first [ vm_compute in L; discriminate | vm_compute; reflexivity ] ].

(** ** Text that already fits *)

(** C1 (as amended).  For every input text in which no line exceeds the
    width, [wrap_text_for_terminal] returns the input unchanged, blank-line
    paragraph separators included, provided the paragraphs handled as
    regular text have no whitespace-only line; whitespace-only lines of a
    table text and of code blocks are kept as they are. *)
Theorem unchanged_when_lines_fit (ucd : unicode_db) (terminal_width : Z)
    (text : str) (width : option Z) :
  fits (effective_width width terminal_width) text ->
  prose_free_of_whitespace_lines text ->
  wrap_text_for_terminal ucd terminal_width text width = Returns text.
Proof.
  intros Hfit Hws. unfold wrap_text_for_terminal.
  now apply reflow_fixed.
Qed.

(** Two paragraphs under the width, the second a code block with a
    whitespace-only line. *)
Lemma unchanged_when_lines_fit_witness :
  let text := join [LF] [lit "hello world"; lit ""; lit "```"; lit "  ";
                         lit "x = 1"; lit "```"] in
  fits 20 text /\ prose_free_of_whitespace_lines text
  /\ wrap_text_for_terminal ascii_db 80 text (Some 20) = Returns text.
Proof.
  cbv zeta.
  assert (F : fits 20 (join [LF] [lit "hello world"; lit ""; lit "```";
                                  lit "  "; lit "x = 1"; lit "```"]))
    by closed_fits.
  assert (W : prose_free_of_whitespace_lines
                (join [LF] [lit "hello world"; lit ""; lit "```"; lit "  ";
                            lit "x = 1"; lit "```"]))
    by closed_prose_free.
  split; [exact F|split; [exact W|]].
  exact (unchanged_when_lines_fit ascii_db 80 _ (Some 20) F W).
Defined.

(** C1 as stated fails: a whitespace-only line of regular text, within
    the width, comes back empty. *)
Lemma whitespace_only_line_is_emptied :
  fits 10 (join [LF] [lit "a"; lit "  "; lit "b"])
  /\ wrap_text_for_terminal ascii_db 80
       (join [LF] [lit "a"; lit "  "; lit "b"]) (Some 10)
     = Returns (join [LF] [lit "a"; lit ""; lit "b"]).
Proof. split; [closed_fits|vm_compute; reflexivity]. Qed.

(** ** The width and the choice of branch *)

(** C8.  When the width argument is absent, the width in effect is
    [max(50, terminal_columns - 15)]: the helper behaves as if called with
    that width, and a terminal 40 columns wide gives 50, not 25. *)
Theorem absent_width_from_terminal (ucd : unicode_db) (terminal_width : Z)
    (text : str) :
  effective_width None terminal_width = Z.max 50 (terminal_width - 15)
  /\ wrap_text_for_terminal ucd terminal_width text None
     = wrap_text_for_terminal ucd terminal_width text
         (Some (Z.max 50 (terminal_width - 15)))
  /\ effective_width None 40 = 50.
Proof. repeat split. Qed.

(** C7.  If one of the box-drawing characters occurs anywhere in the
    text, the whole text is processed line by line by the table branch,
    with no splitting into paragraphs; otherwise the text is split into
    paragraphs on blank lines, each paragraph is processed, and the
    results are joined with blank lines. *)
Theorem table_chars_choose_branch (ucd : unicode_db) (terminal_width : Z)
    (text : str) (width : option Z) :
  ((exists c, In c box_drawing /\ In c text) ->
   wrap_text_for_terminal ucd terminal_width text width
   = (wrapped_lines <-
        for_each (wrap_table_line ucd (effective_width width terminal_width))
                 (split text [LF]) [] ;;
      Returns (join [LF] wrapped_lines)))
  /\ ((forall c, In c box_drawing -> ~ In c text) ->
      wrap_text_for_terminal ucd terminal_width text width
      = (wrapped_paragraphs <-
           for_each (wrap_paragraph ucd (effective_width width terminal_width))
                    (split text [LF; LF]) [] ;;
         Returns (join [LF; LF] wrapped_paragraphs))).
Proof.
  unfold wrap_text_for_terminal. split; intro H.
  - apply has_table_chars_iff in H. rewrite H. reflexivity.
  - destruct (has_table_chars text) eqn:Ht; [|reflexivity].
    apply has_table_chars_iff in Ht. destruct Ht as [c [Hb Hc]].
    destruct (H c Hb Hc).
Qed.

(** Regular text with one vertical bar in it goes through the table
    branch, which keeps its whitespace-only line; without the bar the line
    comes back empty. *)
Lemma table_chars_choose_branch_witness :
  wrap_text_for_terminal ascii_db 80
    (join [LF] [lit "some prose " ++ [VBAR]; lit "  "; lit "more prose"])
    (Some 40)
  = Returns (join [LF] [lit "some prose " ++ [VBAR]; lit "  ";
                        lit "more prose"])
  /\ wrap_text_for_terminal ascii_db 80
       (join [LF] [lit "some prose"; lit "  "; lit "more prose"]) (Some 40)
     = Returns (join [LF] [lit "some prose"; lit ""; lit "more prose"]).
Proof.
  split.
  - rewrite (proj1 (table_chars_choose_branch ascii_db 80 _ (Some 40))).
    + vm_compute. reflexivity.
    + exists VBAR. split; vm_compute; tauto.
  - rewrite (proj2 (table_chars_choose_branch ascii_db 80 _ (Some 40))).
    + vm_compute. reflexivity.
    + intros c Hb Hc. vm_compute in Hb, Hc.
      repeat (destruct Hb as [<-|Hb];
              [repeat (destruct Hc as [Hc|Hc]; [discriminate|]); exact Hc|]).
      exact Hb.
Defined.

(** ** Long lines of a table text *)

Section TableCells.

Lemma concat_cells (parts : list str) :
  concat (cells parts) = join [VBAR] parts.
Proof.
  induction parts as [|part rest IH]; [reflexivity|].
  cbn [cells concat]. rewrite IH.
  destruct rest as [|q rest]; simpl; now rewrite <- ?app_assoc, ?app_nil_r.
Qed.

(** The loop emits the cells it is given, in order, after what was
    already emitted and what was being assembled. *)
Lemma reassemble_cells_concat (width : Z) (parts : list str)
    (current_line : str) (wrapped_lines : list str) :
  concat (reassemble_cells width parts current_line wrapped_lines)
  = concat wrapped_lines ++ current_line ++ concat (cells parts).
Proof.
  revert current_line wrapped_lines.
  induction parts as [|part rest IH]; intros cur acc;
    cbn [reassemble_cells cells concat].
  - rewrite app_nil_r.
    destruct cur; [now rewrite app_nil_r|].
    rewrite concat_app. simpl. now rewrite app_nil_r.
  - destruct (_ <=? width); rewrite IH.
    + now rewrite <- !app_assoc.
    + destruct cur; [reflexivity|].
      rewrite concat_app. simpl. now rewrite app_nil_r, <- !app_assoc.
Qed.

(** Each emitted line was emitted before, or is the line being assembled,
    or fits the width, or is one cell. *)
Lemma reassemble_cells_lines (width : Z) (parts : list str)
    (current_line : str) (wrapped_lines : list str) (l : str) :
  In l (reassemble_cells width parts current_line wrapped_lines) ->
  In l wrapped_lines \/ (l = current_line /\ current_line <> [])
  \/ len l <= width \/ In l (cells parts).
Proof.
  revert current_line wrapped_lines.
  induction parts as [|part rest IH]; intros cur acc H;
    cbn [reassemble_cells cells] in *.
  - destruct cur; [now left|].
    apply in_app_or in H. destruct H as [H|[<-|[]]]; [now left|].
    right; left. split; [reflexivity|discriminate].
  - set (cell := part ++ match rest with [] => [] | _ :: _ => [VBAR] end) in *.
    destruct (Z.leb_spec (len (cur ++ cell)) width) as [Hfit|Hfull].
    + destruct (IH _ _ H) as [G|[[-> _]|[G|G]]]; auto.
      right; right; right. now right.
    + assert (Hacc : forall x, In x match cur with
                                    | [] => acc
                                    | _ :: _ => acc ++ [cur]
                                    end ->
                               In x acc \/ (x = cur /\ cur <> [])).
      { intros x Hx. destruct cur; [now left|].
        apply in_app_or in Hx. destruct Hx as [Hx|[<-|[]]]; [now left|].
        right. split; [reflexivity|discriminate]. }
      destruct (IH _ _ H) as [G|[[-> _]|[G|G]]]; auto.
      * destruct (Hacc _ G); auto.
      * right; right; right. now left.
      * right; right; right. now right.
Qed.

End TableCells.

(** C2 (as amended).  For every over-length line containing the
    separator, the table branch reassembles the cells (each fragment with
    the separator put back, the last one without) greedily into output
    lines each of which either does not exceed the width or is one single
    cell that is itself longer than the width; when every cell fits the
    width, so does every output line. *)
Theorem table_line_fits_or_single_cell (ucd : unicode_db) (width : Z)
    (line : str) :
  width < len line -> contains VBAR line = true ->
  exists emitted,
    wrap_table_line ucd width line = Returns emitted
    /\ Forall (fun l => len l <= width
                        \/ (In l (cells (split line [VBAR]))
                            /\ width < len l)) emitted
    /\ (Forall (fun cell => len cell <= width) (cells (split line [VBAR])) ->
        Forall (fun l => len l <= width) emitted).
Proof.
  intros Hlong Hbar. unfold wrap_table_line.
  destruct (Z.leb_spec (len line) width) as [?|_]; [lia|]. rewrite Hbar.
  eexists. split; [reflexivity|].
  assert (G : forall l,
             In l (reassemble_cells width (split line [VBAR]) [] []) ->
             len l <= width \/ In l (cells (split line [VBAR]))).
  { intros l Hl.
    destruct (reassemble_cells_lines _ _ _ _ _ Hl) as [[]|[[_ E]|[E|E]]];
      auto; congruence. }
  split.
  - apply Forall_forall. intros l Hl.
    destruct (G l Hl) as [E|E]; [now left|].
    destruct (Z.le_gt_cases (len l) width); [now left|right; split; [exact E|lia]].
  - intro Hcells. rewrite Forall_forall in Hcells.
    apply Forall_forall. intros l Hl.
    destruct (G l Hl) as [E|E]; [exact E|exact (Hcells l E)].
Qed.

(** The line of the scenario, at width 10: three output lines, the
    second one the 13-character middle cell. *)
Lemma table_line_fits_or_single_cell_witness :
  exists emitted,
    wrap_table_line ascii_db 10
      (lit "a " ++ [VBAR] ++ lit " bbbbbbbbbb " ++ [VBAR] ++ lit " c")
    = Returns emitted
    /\ Forall (fun l => len l <= 10
                        \/ (In l (cells (split (lit "a " ++ [VBAR]
                                                  ++ lit " bbbbbbbbbb "
                                                  ++ [VBAR] ++ lit " c")
                                                [VBAR]))
                            /\ 10 < len l)) emitted
    /\ (Forall (fun cell => len cell <= 10)
               (cells (split (lit "a " ++ [VBAR] ++ lit " bbbbbbbbbb "
                                ++ [VBAR] ++ lit " c") [VBAR])) ->
        Forall (fun l => len l <= 10) emitted).
Proof.
  apply (table_line_fits_or_single_cell ascii_db 10);
    vm_compute; reflexivity.
Defined.

(** C2 as stated fails on its own scenario: at width 10 the middle cell
    is emitted as a line of 13 characters. *)
Lemma long_cell_exceeds_width :
  wrap_text_for_terminal ascii_db 80
    (lit "a " ++ [VBAR] ++ lit " bbbbbbbbbb " ++ [VBAR] ++ lit " c")
    (Some 10)
  = Returns (join [LF] [lit "a " ++ [VBAR]; lit " bbbbbbbbbb " ++ [VBAR];
                        lit " c"])
  /\ len (lit " bbbbbbbbbb " ++ [VBAR]) = 13.
Proof. split; vm_compute; reflexivity. Qed.

(** C10.  For every over-length line containing the separator, the
    output lines of the table branch, concatenated in order, are the input
    line: every cell fragment and every separator is kept, in order. *)
Theorem table_line_keeps_characters (ucd : unicode_db) (width : Z)
    (line : str) :
  width < len line -> contains VBAR line = true ->
  exists emitted,
    wrap_table_line ucd width line = Returns emitted
    /\ concat emitted = line.
Proof.
  intros Hlong Hbar. unfold wrap_table_line.
  destruct (Z.leb_spec (len line) width) as [?|_]; [lia|]. rewrite Hbar.
  eexists. split; [reflexivity|].
  rewrite reassemble_cells_concat, concat_cells. simpl.
  apply join_split. discriminate.
Qed.

Lemma table_line_keeps_characters_witness :
  exists emitted,
    wrap_table_line ascii_db 10
      (lit "a " ++ [VBAR] ++ lit " bbbbbbbbbb " ++ [VBAR] ++ lit " c")
    = Returns emitted
    /\ concat emitted
       = lit "a " ++ [VBAR] ++ lit " bbbbbbbbbb " ++ [VBAR] ++ lit " c".
Proof.
  apply (table_line_keeps_characters ascii_db 10); vm_compute; reflexivity.
Defined.

(** ** Paragraphs: code blocks and regular text *)

(** C3 (as amended).  In a text without table characters, a paragraph
    whose first non-whitespace content is a triple-backtick fence is
    handled line by line by the code branch; a paragraph that begins with
    a space but not with four, and whose content does not begin with a
    fence (two leading spaces, say), is handled by the branch for regular
    text. *)
Theorem fence_is_code_short_indent_is_prose (ucd : unicode_db) (width : Z)
    (paragraph : str) :
  (startswith (strip paragraph) (lit "```") = true ->
   wrap_paragraph ucd width paragraph
   = (wrapped <- wrap_code_block ucd width paragraph ;; Returns [wrapped]))
  /\ (startswith paragraph [SPACE] = true ->
      startswith paragraph (lit "    ") = false ->
      startswith (strip paragraph) (lit "```") = false ->
      wrap_paragraph ucd width paragraph
      = (wrapped <- wrap_prose ucd width paragraph ;; Returns [wrapped])).
Proof.
  unfold wrap_paragraph. rewrite is_code_block_fence.
  split; [intros ->|intros _ _ ->]; reflexivity.
Qed.

(** A fenced paragraph with an indented long line, and a paragraph with
    two leading spaces, both at width 30: the first keeps the indent on
    the continuation line, the second does not. *)
Lemma fence_is_code_short_indent_is_prose_witness :
  wrap_paragraph ascii_db 30
    (join [LF] [lit "```";
                lit "  aaa bbb ccc ddd eee fff ggg hhh iii jjj kkk lll"])
  = Returns [join [LF] [lit "```"; lit "  aaa bbb ccc ddd eee fff ggg";
                        lit "  hhh iii jjj kkk lll"]]
  /\ wrap_paragraph ascii_db 30
       (lit "  aaa bbb ccc ddd eee fff ggg hhh iii jjj kkk lll")
     = Returns [join [LF] [lit "  aaa bbb ccc ddd eee fff ggg";
                           lit "hhh iii jjj kkk lll"]].
Proof.
  split.
  - rewrite (proj1 (fence_is_code_short_indent_is_prose ascii_db 30 _));
      vm_compute; reflexivity.
  - rewrite (proj2 (fence_is_code_short_indent_is_prose ascii_db 30 _));
      vm_compute; reflexivity.
Defined.

(** C3 as stated fails: a paragraph with two leading spaces is not taken
    for code.  The helper wraps it as regular text, and the continuation
    line loses the indent that the code branch would have put back. *)
Lemma two_space_indent_is_not_code :
  is_code_block (lit "  aaa bbb ccc ddd eee fff ggg hhh iii jjj kkk lll")
  = false
  /\ wrap_text_for_terminal ascii_db 80
       (lit "  aaa bbb ccc ddd eee fff ggg hhh iii jjj kkk lll") (Some 30)
     = Returns (join [LF] [lit "  aaa bbb ccc ddd eee fff ggg";
                           lit "hhh iii jjj kkk lll"])
  /\ wrap_code_block ascii_db 30
       (lit "  aaa bbb ccc ddd eee fff ggg hhh iii jjj kkk lll")
     = Returns (join [LF] [lit "  aaa bbb ccc ddd eee fff ggg";
                           lit "  hhh iii jjj kkk lll"]).
Proof. repeat split; vm_compute; reflexivity. Qed.

(** ** Long lines of a code block *)

Section CodeLines.

Variable ucd : unicode_db.

(** The word-fill of a long line of a code block. *)
Lemma fill_indented_spec (line : str) (width : Z) :
  20 < width - (len line - len (lstrip line)) ->
  exists wrapped,
    Textwrap.fill ucd (lstrip line) (width - (len line - len (lstrip line)))
    = Returns wrapped
    /\ fill_indented ucd
         (slice_to line (len line - len (lstrip line)))
         (slice_from line (len line - len (lstrip line)))
         (width - (len line - len (lstrip line)))
       = Returns (map (app (slice_to line (len line - len (lstrip line))))
                      (split wrapped [LF]))
    /\ Forall (fun l => len l <= width - (len line - len (lstrip line)))
              (split wrapped [LF]).
Proof.
  intro Hw. destruct (indent_cut line) as [_ [Ec _]]. cbv zeta in Ec.
  destruct (fill_returns ucd (lstrip line)
              (width - (len line - len (lstrip line))) ltac:(lia))
    as [wrapped [E B]].
  exists wrapped. unfold fill_indented. rewrite Ec, E.
  repeat split; auto.
Qed.

Lemma wrap_code_line_total (width : Z) (line : str) :
  exists out, wrap_code_line ucd width line = Returns out.
Proof.
  unfold wrap_code_line.
  destruct (len line <=? width); [eexists; reflexivity|].
  destruct (Z.ltb_spec 20 (width - (len line - len (lstrip line))))
    as [Hw|_]; [|eexists; reflexivity].
  destruct (fill_indented_spec line width Hw) as [wrapped [_ [E _]]].
  rewrite E. eexists; reflexivity.
Qed.

End CodeLines.

(** C5 (as amended).  For every over-length line of a code block whose
    width minus the length of the leading whitespace exceeds 20, the
    leading whitespace is kept as a fixed prefix, the remaining content is
    word-filled into the width minus the prefix length, and the prefix is
    put back in front of every line of the result, the continuation lines
    included; no output line exceeds the width. *)
Theorem code_line_filled_behind_indent (ucd : unicode_db) (width : Z)
    (line : str) :
  width < len line ->
  20 < width - (len line - len (lstrip line)) ->
  exists indent_str wrapped,
    indent_str ++ lstrip line = line
    /\ forallb isspace indent_str = true
    /\ Textwrap.fill ucd (lstrip line) (width - len indent_str)
       = Returns wrapped
    /\ Forall (fun l => len l <= width - len indent_str) (split wrapped [LF])
    /\ wrap_code_line ucd width line
       = Returns (map (app indent_str) (split wrapped [LF]))
    /\ Forall (fun l => len l <= width)
              (map (app indent_str) (split wrapped [LF])).
Proof.
  intros Hlong Hw.
  destruct (indent_cut line) as [Ea [Ec [Ews El]]]. cbv zeta in *.
  destruct (fill_indented_spec ucd line width Hw) as [wrapped [E [Ei B]]].
  exists (slice_to line (len line - len (lstrip line))), wrapped.
  rewrite El. rewrite Ec in Ea.
  repeat split; auto.
  - unfold wrap_code_line.
    destruct (Z.leb_spec (len line) width) as [?|_]; [lia|].
    destruct (Z.ltb_spec 20 (width - (len line - len (lstrip line))))
      as [_|?]; [exact Ei|lia].
  - apply Forall_map. eapply Forall_impl; [|exact B].
    intros l Hl. cbv beta in Hl. rewrite len_app, El. lia.
Qed.

(** The line of the scenario: 200 characters, the first four of them
    spaces, at width 30.  The content is filled into 26 columns and every
    output line starts with the four spaces. *)
Lemma code_line_filled_behind_indent_witness :
  let line := lit "    " ++ concat (repeat (lit "word ") 39) ++ lit "x" in
  len line = 200
  /\ (exists indent_str wrapped,
        indent_str ++ lstrip line = line
        /\ forallb isspace indent_str = true
        /\ Textwrap.fill ascii_db (lstrip line) (30 - len indent_str)
           = Returns wrapped
        /\ Forall (fun l => len l <= 30 - len indent_str)
                  (split wrapped [LF])
        /\ wrap_code_line ascii_db 30 line
           = Returns (map (app indent_str) (split wrapped [LF]))
        /\ Forall (fun l => len l <= 30)
                  (map (app indent_str) (split wrapped [LF])))
  /\ wrap_code_line ascii_db 30 line
     = Returns (map (app (lit "    "))
                    (repeat (lit "word word word word word") 7
                     ++ [lit "word word word word x"])).
Proof.
  cbv zeta. split; [vm_compute; reflexivity|].
  split; [|vm_compute; reflexivity].
  apply (code_line_filled_behind_indent ascii_db 30); vm_compute; reflexivity.
Defined.

(** C5 as stated fails when the prefix leaves 20 columns or less: the
    line is cut at the width and the rest follows without the prefix. *)
Lemma deep_indent_is_cut_without_prefix :
  wrap_text_for_terminal ascii_db 80
    (lit "            ```aaaaaaaaaaaaaaaaaaaaaaaa") (Some 30)
  = Returns (join [LF] [lit "            ```aaaaaaaaaaaaaaa";
                        lit "aaaaaaaaa"])
  /\ len (lit "            ```aaaaaaaaaaaaaaaaaaaaaaaa") = 39
  /\ lstrip (lit "            ```aaaaaaaaaaaaaaaaaaaaaaaa")
     = lit "```aaaaaaaaaaaaaaaaaaaaaaaa".
Proof. repeat split; vm_compute; reflexivity. Qed.

(** C9 (as amended).  For every over-length line of a code block, the
    hard cut (the line up to the width, then the remainder as it is on
    the following line) is taken exactly when the width minus the length
    of the leading whitespace is 20 or less; when it is 21 or more the
    content is word-filled and the prefix put back on every line. *)
Theorem code_line_cut_or_filled (ucd : unicode_db) (width : Z) (line : str) :
  width < len line ->
  (width - (len line - len (lstrip line)) <= 20 ->
   wrap_code_line ucd width line
   = Returns [slice_to line width; slice_from line width]
   /\ slice_to line width ++ slice_from line width = line)
  /\ (20 < width - (len line - len (lstrip line)) ->
      exists wrapped,
        Textwrap.fill ucd (lstrip line)
          (width - (len line - len (lstrip line)))
        = Returns wrapped
        /\ wrap_code_line ucd width line
           = Returns (map (app (slice_to line (len line - len (lstrip line))))
                          (split wrapped [LF]))).
Proof.
  intro Hlong. unfold wrap_code_line.
  destruct (Z.leb_spec (len line) width) as [?|_]; [lia|].
  split; intro Hw.
  - destruct (Z.ltb_spec 20 (width - (len line - len (lstrip line))))
      as [?|_]; [lia|].
    unfold hard_cut. destruct (Z.ltb_spec width (len line)) as [_|?]; [|lia].
    split; [reflexivity|apply slice_to_from].
  - destruct (Z.ltb_spec 20 (width - (len line - len (lstrip line))))
      as [_|?]; [|lia].
    destruct (fill_indented_spec ucd line width Hw) as [wrapped [E [Ei _]]].
    exists wrapped. split; assumption.
Qed.

(** A line with two leading spaces: at width 22 (20 columns left) it is
    cut, at width 23 (21 columns left) it is filled. *)
Lemma code_line_cut_or_filled_witness :
  (wrap_code_line ascii_db 22 (lit "  aaaa bbbb cccc dddd eeee ffff")
   = Returns [slice_to (lit "  aaaa bbbb cccc dddd eeee ffff") 22;
              slice_from (lit "  aaaa bbbb cccc dddd eeee ffff") 22]
   /\ slice_to (lit "  aaaa bbbb cccc dddd eeee ffff") 22
      ++ slice_from (lit "  aaaa bbbb cccc dddd eeee ffff") 22
      = lit "  aaaa bbbb cccc dddd eeee ffff")
  /\ (exists wrapped,
        Textwrap.fill ascii_db (lstrip (lit "  aaaa bbbb cccc dddd eeee ffff"))
          (23 - (len (lit "  aaaa bbbb cccc dddd eeee ffff")
                 - len (lstrip (lit "  aaaa bbbb cccc dddd eeee ffff"))))
        = Returns wrapped
        /\ wrap_code_line ascii_db 23 (lit "  aaaa bbbb cccc dddd eeee ffff")
           = Returns
               (map (app (slice_to (lit "  aaaa bbbb cccc dddd eeee ffff")
                            (len (lit "  aaaa bbbb cccc dddd eeee ffff")
                             - len (lstrip
                                      (lit "  aaaa bbbb cccc dddd eeee ffff")))))
                    (split wrapped [LF]))).
Proof.
  split.
  - apply (proj1 (code_line_cut_or_filled ascii_db 22
                    (lit "  aaaa bbbb cccc dddd eeee ffff") eq_refl)).
    vm_compute. discriminate.
  - apply (proj2 (code_line_cut_or_filled ascii_db 23
                    (lit "  aaaa bbbb cccc dddd eeee ffff") eq_refl)).
    vm_compute. reflexivity.
Defined.

(** C9 as stated fails at a remaining width of exactly 20: the line is
    cut at the width, where the word-fill of its content would have
    given two indented lines. *)
Lemma remaining_width_20_is_cut :
  wrap_text_for_terminal ascii_db 80
    (join [LF] [lit "```"; lit "  aaaa bbbb cccc dddd eeee ffff"]) (Some 22)
  = Returns (join [LF] [lit "```"; lit "  aaaa bbbb cccc dddd ";
                        lit "eeee ffff"])
  /\ 22 - (len (lit "  aaaa bbbb cccc dddd eeee ffff")
           - len (lstrip (lit "  aaaa bbbb cccc dddd eeee ffff"))) = 20
  /\ fill_indented ascii_db (lit "  ") (lit "aaaa bbbb cccc dddd eeee ffff") 20
     = Returns [lit "  aaaa bbbb cccc dddd"; lit "  eeee ffff"].
Proof. repeat split; vm_compute; reflexivity. Qed.

(** ** Returning and raising *)

Section Totality.

Variable ucd : unicode_db.

Lemma wrap_table_line_total (width : Z) (line : str) :
  1 <= width -> exists out, wrap_table_line ucd width line = Returns out.
Proof.
  intro Hw. unfold wrap_table_line.
  destruct (len line <=? width); [eexists; reflexivity|].
  destruct (contains VBAR line); [eexists; reflexivity|].
  destruct (fill_returns ucd line width Hw) as [wrapped [E _]].
  rewrite E. eexists; reflexivity.
Qed.

Lemma wrap_prose_line_total (width : Z) (line : str) :
  1 <= width -> exists out, wrap_prose_line ucd width line = Returns out.
Proof.
  intro Hw. unfold wrap_prose_line.
  destruct (len (strip line) =? 0); [eexists; reflexivity|].
  destruct (len line <=? width); [eexists; reflexivity|].
  destruct (fill_returns ucd line width Hw) as [wrapped [E _]].
  rewrite E. eexists; reflexivity.
Qed.

Lemma wrap_paragraph_total (width : Z) (paragraph : str) :
  1 <= width -> exists out, wrap_paragraph ucd width paragraph = Returns out.
Proof.
  intro Hw. unfold wrap_paragraph, wrap_code_block, wrap_prose.
  destruct (is_code_block paragraph).
  - destruct (for_each_total (wrap_code_line ucd width)
                (split paragraph [LF]) []) as [ls E].
    + intros l _. apply wrap_code_line_total.
    + rewrite E. eexists; reflexivity.
  - destruct (for_each_total (wrap_prose_line ucd width)
                (split paragraph [LF]) []) as [ls E].
    + intros l _. now apply wrap_prose_line_total.
    + rewrite E. eexists; reflexivity.
Qed.

End Totality.

(** C4 (as amended).  For every text and every width of at least 1, a
    single token wider than the width included, [wrap_text_for_terminal]
    returns a string; so it does whenever the width argument is absent. *)
Theorem returns_at_positive_width (ucd : unicode_db) (terminal_width : Z)
    (text : str) (width : option Z) :
  1 <= effective_width width terminal_width ->
  exists wrapped,
    wrap_text_for_terminal ucd terminal_width text width = Returns wrapped.
Proof.
  intro Hw. unfold wrap_text_for_terminal, wrap_table, wrap_paragraphs.
  destruct (has_table_chars text).
  - destruct (for_each_total
                (wrap_table_line ucd (effective_width width terminal_width))
                (split text [LF]) []) as [ls E].
    + intros l _. now apply wrap_table_line_total.
    + rewrite E. eexists; reflexivity.
  - destruct (for_each_total
                (wrap_paragraph ucd (effective_width width terminal_width))
                (split text [LF; LF]) []) as [ls E].
    + intros p _. now apply wrap_paragraph_total.
    + rewrite E. eexists; reflexivity.
Qed.

(** One token of 26 letters at width 5. *)
Lemma returns_at_positive_width_witness :
  exists wrapped,
    wrap_text_for_terminal ascii_db 80 (lit "abcdefghijklmnopqrstuvwxyz")
      (Some 5)
    = Returns wrapped.
Proof.
  apply (returns_at_positive_width ascii_db 80 _ (Some 5)).
  vm_compute. discriminate.
Defined.

(** C4 as stated fails: at width zero, and at a negative width, a line of
    regular text makes [textwrap.fill] raise [ValueError], which the
    helper lets through. *)
Lemma nonpositive_width_raises :
  wrap_text_for_terminal ascii_db 80 (lit "abc") (Some 0) = Raises ValueError
  /\ wrap_text_for_terminal ascii_db 80 (lit "abc") (Some (-1))
     = Raises ValueError.
Proof. split; vm_compute; reflexivity. Qed.

(** The fuel of the model never runs out, whatever the text and the
    width: a call returns or raises. *)
Lemma bind_fuel {A B : Type} (m : outcome A) (k : A -> outcome B) :
  m <> OutOfFuel -> (forall a, k a <> OutOfFuel) -> bind m k <> OutOfFuel.
Proof. destruct m; simpl; auto; discriminate. Qed.

Lemma wrap_text_for_terminal_fuel (ucd : unicode_db) (terminal_width : Z)
    (text : str) (width : option Z) :
  wrap_text_for_terminal ucd terminal_width text width <> OutOfFuel.
Proof.
  unfold wrap_text_for_terminal, wrap_table, wrap_paragraphs.
  destruct (has_table_chars text); apply bind_fuel; try discriminate;
    apply for_each_fuel; intros x _.
  - unfold wrap_table_line.
    destruct (len x <=? _); [discriminate|].
    destruct (contains VBAR x); [discriminate|].
    apply bind_fuel; [apply fill_terminates|discriminate].
  - unfold wrap_paragraph, wrap_code_block, wrap_prose.
    apply bind_fuel; [|discriminate].
    destruct (is_code_block x); apply bind_fuel; try discriminate;
      apply for_each_fuel; intros l _.
    + unfold wrap_code_line, fill_indented.
      destruct (len l <=? _); [discriminate|].
      destruct (20 <? _); [|discriminate].
      apply bind_fuel; [apply fill_terminates|discriminate].
    + unfold wrap_prose_line.
      destruct (len (strip l) =? 0); [discriminate|].
      destruct (len l <=? _); [discriminate|].
      apply bind_fuel; [apply fill_terminates|discriminate].
Qed.

(** With the width argument absent the helper always returns. *)
Lemma effective_width_absent (terminal_width : Z) :
  50 <= effective_width None terminal_width.
Proof. unfold effective_width. lia. Qed.

(** ** Lines of the result *)

Section OutputFits.

Variable ucd : unicode_db.

Lemma fits_short (width : Z) (line : str) : len line <= width -> fits width line.
Proof.
  intro H. apply Forall_forall. intros l Hl.
  pose proof (split_char_piece_len LF line l Hl). lia.
Qed.

Lemma fits_join (k : nat) (width : Z) (parts : list str) :
  0 <= width -> Forall (fits width) parts ->
  fits width (join (repeat LF (S k)) parts).
Proof.
  intros Hw H. apply Forall_forall. intros l Hl.
  destruct (lines_of_join k parts l Hl) as [->|[p [Hp Hlp]]].
  - change (len []) with 0. lia.
  - rewrite Forall_forall in H. specialize (H p Hp).
    unfold fits in H. rewrite Forall_forall in H. now apply H.
Qed.

Lemma wrap_prose_line_fits (width : Z) (line : str) :
  1 <= width ->
  exists out,
    wrap_prose_line ucd width line = Returns out /\ Forall (fits width) out.
Proof.
  intro Hw. unfold wrap_prose_line.
  destruct (len (strip line) =? 0).
  - eexists. split; [reflexivity|].
    constructor; [apply fits_short; change (len []) with 0; lia|constructor].
  - destruct (Z.leb_spec (len line) width) as [Hfit|_].
    + eexists. split; [reflexivity|].
      constructor; [now apply fits_short|constructor].
    + destruct (fill_returns ucd line width Hw) as [wrapped [E B]].
      rewrite E. eexists. split; [reflexivity|].
      constructor; [exact B|constructor].
Qed.

Lemma wrap_code_line_fits (width : Z) (line : str) :
  (width < len line -> 20 < width - (len line - len (lstrip line))) ->
  exists out,
    wrap_code_line ucd width line = Returns out /\ Forall (fits width) out.
Proof.
  intro Hcut. unfold wrap_code_line.
  destruct (Z.leb_spec (len line) width) as [Hfit|Hlong].
  - eexists. split; [reflexivity|].
    constructor; [now apply fits_short|constructor].
  - specialize (Hcut Hlong).
    destruct (Z.ltb_spec 20 (width - (len line - len (lstrip line))))
      as [_|?]; [|lia].
    destruct (fill_indented_spec ucd line width Hcut) as [wrapped [_ [E B]]].
    rewrite E. eexists. split; [reflexivity|].
    destruct (indent_cut line) as [_ [_ [_ El]]]. cbv zeta in El.
    apply Forall_map. eapply Forall_impl; [|exact B].
    intros l Hl. cbv beta in Hl. apply fits_short.
    rewrite len_app, El. lia.
Qed.

(** At a width of at least 1, a text without table characters whose code
    blocks need no hard cut is reflowed into lines within the width. *)
Lemma reflow_fits (width : Z) (text : str) :
  1 <= width -> free_of_hard_cuts width text ->
  exists reflowed,
    wrap_paragraphs ucd width text = Returns reflowed /\ fits width reflowed.
Proof.
  intros Hw Hcut. unfold free_of_hard_cuts in Hcut.
  rewrite Forall_forall in Hcut. unfold wrap_paragraphs.
  destruct (for_each_invariant (fits width) (wrap_paragraph ucd width)
              (split text [LF; LF]) []) as [ps [E Hps]]; [|constructor|].
  - intros p Hp. specialize (Hcut p Hp).
    unfold wrap_paragraph, wrap_code_block, wrap_prose.
    destruct (is_code_block p).
    + specialize (Hcut eq_refl). rewrite Forall_forall in Hcut.
      destruct (for_each_invariant (fits width) (wrap_code_line ucd width)
                  (split p [LF]) []) as [ls [El Hls]]; [|constructor|].
      * intros l Hl. apply wrap_code_line_fits. now apply Hcut.
      * rewrite El. eexists. split; [reflexivity|].
        constructor; [|constructor].
        apply (fits_join 0); [lia|exact Hls].
    + destruct (for_each_invariant (fits width) (wrap_prose_line ucd width)
                  (split p [LF]) []) as [ls [El Hls]]; [|constructor|].
      * intros l _. now apply wrap_prose_line_fits.
      * rewrite El. eexists. split; [reflexivity|].
        constructor; [|constructor].
        apply (fits_join 0); [lia|exact Hls].
  - rewrite E. eexists. split; [reflexivity|].
    apply (fits_join 1); [lia|exact Hps].
Qed.

End OutputFits.

(** ** A second pass *)

(** C6 (as amended).  For every input already produced by
    [wrap_text_for_terminal] at width W, a second application at the same
    width returns it unchanged, provided the first result has no
    whitespace-only line in a paragraph handled as regular text and no
    line longer than W; the first result has no line longer than W
    whenever the input has no table characters, W is at least 1 and no
    long line of a code block was hard-cut. *)
Theorem second_pass_unchanged (ucd : unicode_db) (terminal_width : Z)
    (text reflowed : str) (width : option Z) :
  wrap_text_for_terminal ucd terminal_width text width = Returns reflowed ->
  prose_free_of_whitespace_lines reflowed ->
  fits (effective_width width terminal_width) reflowed
  \/ (has_table_chars text = false
      /\ 1 <= effective_width width terminal_width
      /\ free_of_hard_cuts (effective_width width terminal_width) text) ->
  wrap_text_for_terminal ucd terminal_width reflowed width = Returns reflowed.
Proof.
  intros E Hws H.
  assert (Hfit : fits (effective_width width terminal_width) reflowed).
  { destruct H as [H|[Ht [Hw Hcut]]]; [exact H|].
    unfold wrap_text_for_terminal in E. rewrite Ht in E.
    destruct (reflow_fits ucd _ text Hw Hcut) as [r [Er Fr]].
    rewrite Er in E. now inversion E; subst. }
  unfold wrap_text_for_terminal. now apply reflow_fixed.
Qed.

(** A paragraph of regular text and a code block with a long indented
    line, at width 30. *)
Lemma second_pass_unchanged_witness :
  let text :=
    join [LF] [lit "the quick brown fox jumps over the lazy dog again";
               lit "";
               lit "```";
               lit "    alpha beta gamma delta epsilon zeta eta theta";
               lit "```"] in
  let reflowed :=
    join [LF] [lit "the quick brown fox jumps over";
               lit "the lazy dog again";
               lit "";
               lit "```";
               lit "    alpha beta gamma delta";
               lit "    epsilon zeta eta theta";
               lit "```"] in
  wrap_text_for_terminal ascii_db 80 text (Some 30) = Returns reflowed
  /\ wrap_text_for_terminal ascii_db 80 reflowed (Some 30) = Returns reflowed.
Proof.
  cbv zeta.
  assert (E : wrap_text_for_terminal ascii_db 80
                (join [LF]
                   [lit "the quick brown fox jumps over the lazy dog again";
                    lit "";
                    lit "```";
                    lit "    alpha beta gamma delta epsilon zeta eta theta";
                    lit "```"]) (Some 30)
              = Returns
                  (join [LF] [lit "the quick brown fox jumps over";
                              lit "the lazy dog again";
                              lit "";
                              lit "```";
                              lit "    alpha beta gamma delta";
                              lit "    epsilon zeta eta theta";
                              lit "```"]))
    by (vm_compute; reflexivity).
  split; [exact E|].
  apply (second_pass_unchanged ascii_db 80 _ _ (Some 30) E).
  - closed_prose_free.
  - right. split; [vm_compute; reflexivity|].
    split; [vm_compute; discriminate|].
    closed_free_of_hard_cuts.
Defined.

(** C6 as stated fails: the remainder of a hard cut can be longer than
    the width, and a second pass cuts it again. *)
Lemma hard_cut_remainder_is_cut_again :
  wrap_text_for_terminal ascii_db 80 (lit "```" ++ repeat 97%N 30) (Some 10)
  = Returns (join [LF] [lit "```" ++ repeat 97%N 7; repeat 97%N 23])
  /\ wrap_text_for_terminal ascii_db 80
       (join [LF] [lit "```" ++ repeat 97%N 7; repeat 97%N 23]) (Some 10)
     = Returns (join [LF] [lit "```" ++ repeat 97%N 7; repeat 97%N 10;
                           repeat 97%N 13]).
Proof. split; vm_compute; reflexivity. Qed.

(** * Further properties of the client *)

(** ** What reflowing keeps: the characters that are not whitespace *)

Section Content.

Variable ucd : unicode_db.

Lemma bind_returns {A B : Type} (m : outcome A) (k : A -> outcome B) (b : B) :
  bind m k = Returns b -> exists a, m = Returns a /\ k a = Returns b.
Proof. destruct m; simpl; intro H; try discriminate. now exists a. Qed.

Lemma nonspace_app (a b : str) : nonspace (a ++ b) = nonspace a ++ nonspace b.
Proof. apply filter_app. Qed.

Lemma nonspace_blank (s : str) : forallb isspace s = true -> nonspace s = [].
Proof.
  induction s as [|c s IH]; simpl; [reflexivity|].
  intro H. apply andb_prop in H. destruct H as [Hc Hs].
  rewrite Hc. simpl. now apply IH.
Qed.

Lemma nonspace_concat_app (xs ys : list str) :
  nonspace (concat (xs ++ ys))
  = nonspace (concat xs) ++ nonspace (concat ys).
Proof. now rewrite concat_app, nonspace_app. Qed.

Lemma nonspace_concat_cons (x : str) (xs : list str) :
  nonspace (concat (x :: xs)) = nonspace x ++ nonspace (concat xs).
Proof. simpl. apply nonspace_app. Qed.

(** Joining with a separator made of whitespace adds nothing else. *)
Lemma nonspace_join (sep : str) (parts : list str) :
  forallb isspace sep = true ->
  nonspace (join sep parts) = nonspace (concat parts).
Proof.
  intro Hs. induction parts as [|p rest IH]; [reflexivity|].
  destruct rest as [|q rest].
  - simpl. now rewrite app_nil_r.
  - rewrite join_cons by discriminate.
    rewrite nonspace_concat_cons, !nonspace_app, IH.
    now rewrite (nonspace_blank sep Hs).
Qed.

Lemma nonspace_split (s sep : str) :
  sep <> [] -> forallb isspace sep = true ->
  nonspace (concat (split s sep)) = nonspace s.
Proof.
  intros Hne Hs. rewrite <- (nonspace_join sep) by exact Hs.
  now rewrite join_split.
Qed.

(** *** [textwrap.fill] *)

Lemma whitespace_isspace (c : char) :
  Textwrap.whitespace c = true -> isspace c = true.
Proof.
  unfold Textwrap.whitespace, isspace. intro H.
  apply orb_prop in H. destruct H as [H|H].
  - rewrite H. reflexivity.
  - apply N.eqb_eq in H. subst c. reflexivity.
Qed.

Lemma nonspace_repeat_space (n : nat) : nonspace (repeat SPACE n) = [].
Proof. induction n as [|n IH]; simpl; [reflexivity|exact IH]. Qed.

Lemma nonspace_expandtabs (tabsize line_pos : Z) (s : str) :
  nonspace (expandtabs_at tabsize line_pos s) = nonspace s.
Proof.
  revert line_pos. induction s as [|c s IH]; intro line_pos; [reflexivity|].
  cbn [expandtabs_at]. destruct (N.eqb_spec c TAB) as [->|Hc].
  - change (nonspace (TAB :: s)) with (nonspace s).
    destruct (0 <? tabsize); [|apply IH].
    now rewrite nonspace_app, nonspace_repeat_space, IH.
  - simpl. now rewrite IH.
Qed.

Lemma nonspace_munge (text : str) :
  nonspace (Textwrap._munge_whitespace text) = nonspace text.
Proof.
  unfold Textwrap._munge_whitespace, expandtabs.
  rewrite <- (nonspace_expandtabs 8 0 text).
  induction (expandtabs_at 8 0 text) as [|c s IH]; [reflexivity|].
  simpl. destruct (Textwrap.whitespace c) eqn:Hw.
  - apply whitespace_isspace in Hw. rewrite Hw. simpl. exact IH.
  - now rewrite IH.
Qed.

Lemma concat_flush (cur : str) : concat (Textwrap.flush cur) = cur.
Proof. destruct cur; simpl; [reflexivity|now rewrite app_nil_r]. Qed.

(** The chunks of [_split] make up the text. *)
Lemma split_scan_concat (s before : str) (kind : Textwrap.chunk_kind)
    (cur : str) :
  concat (Textwrap.split_scan ucd before kind cur s) = cur ++ s.
Proof.
  revert before kind cur.
  induction s as [|c s IH]; intros before kind cur; cbn [Textwrap.split_scan].
  - rewrite concat_flush. now rewrite app_nil_r.
  - destruct (Textwrap.continues ucd before kind c s).
    + destruct (match kind with
                | Textwrap.InWord => Textwrap.hyphen_break ucd before c s
                | _ => false
                end).
      * simpl. rewrite IH. simpl. now rewrite <- app_assoc.
      * rewrite IH. now rewrite <- app_assoc.
    + rewrite concat_app, concat_flush, IH. reflexivity.
Qed.

Lemma blank_nonspace (chunk : str) :
  Textwrap.blank chunk = true -> nonspace chunk = [].
Proof.
  unfold Textwrap.blank. intro H. apply nonspace_blank, strip_nil_iff.
  destruct (strip chunk); [reflexivity|discriminate].
Qed.

Lemma handle_long_word_concat (chunks cur_line chunks' cur_line' : list str)
    (cur_len width : Z) :
  Textwrap._handle_long_word chunks cur_line cur_len width
  = (chunks', cur_line') ->
  concat cur_line' ++ concat chunks' = concat cur_line ++ concat chunks.
Proof.
  unfold Textwrap._handle_long_word. destruct chunks as [|chunk rest].
  - intro H. now inversion H.
  - intro H. inversion H; subst. clear H.
    rewrite concat_app. simpl. rewrite app_nil_r, <- !app_assoc.
    f_equal. rewrite app_assoc. now rewrite slice_to_from.
Qed.

(** One pass of the outer loop moves characters from the chunks to the
    lines and drops nothing but whitespace. *)
Lemma wrap_line_content (width : Z) (lines chunks lines' chunks' : list str) :
  Textwrap.wrap_line width lines chunks = (lines', chunks') ->
  nonspace (concat lines') ++ nonspace (concat chunks')
  = nonspace (concat lines) ++ nonspace (concat chunks).
Proof.
  intro H. unfold Textwrap.wrap_line in H. cbv zeta in H.
  set (chunks1 := match chunks with
                  | first :: rest =>
                      if Textwrap.blank first && negb (len lines =? 0)
                      then rest else chunks
                  | [] => chunks
                  end) in H.
  assert (H1 : nonspace (concat chunks1) = nonspace (concat chunks)).
  { subst chunks1. destruct chunks as [|first rest]; [reflexivity|].
    destruct (Textwrap.blank first) eqn:Hb; [|reflexivity].
    destruct (negb (len lines =? 0)); [|reflexivity].
    simpl andb. cbv iota.
    now rewrite nonspace_concat_cons, (blank_nonspace _ Hb). }
  rewrite <- H1. clearbody chunks1. clear H1.
  destruct (Textwrap.take_fitting (width - len (@nil char)) [] 0 chunks1)
    as [[cl n] chunks2] eqn:T.
  destruct (take_fitting_spec _ _ _ _ _ _ _ T) as [taken [E [C _]]].
  simpl in C. subst cl chunks1.
  match type of H with
  | (let '(a, b) := ?x in _) = _ =>
      destruct x as [chunks3 cur_line2] eqn:E3
  end.
  assert (H3 : concat cur_line2 ++ concat chunks3
               = concat taken ++ concat chunks2).
  { destruct chunks2 as [|next rest2]; [now inversion E3|].
    destruct (_ <? len next); [|now inversion E3].
    exact (handle_long_word_concat _ _ _ _ _ _ E3). }
  match type of H with
  | match ?x with [] => _ | _ :: _ => _ end = _ => set (cur_line3 := x) in H
  end.
  assert (H4 : nonspace (concat cur_line3) = nonspace (concat cur_line2)).
  { subst cur_line3. destruct (rev cur_line2) as [|last_chunk r] eqn:Er;
      [reflexivity|].
    destruct (Textwrap.blank last_chunk) eqn:Hb; [|reflexivity].
    assert (E2 : cur_line2 = rev r ++ [last_chunk]).
    { rewrite <- (rev_involutive cur_line2), Er. reflexivity. }
    rewrite E2, removelast_last, nonspace_concat_app. simpl concat.
    now rewrite app_nil_r, (blank_nonspace _ Hb), app_nil_r. }
  clearbody cur_line3.
  assert (H5 : nonspace (concat lines') = nonspace (concat lines)
                                          ++ nonspace (concat cur_line3)
               /\ chunks' = chunks3).
  { destruct cur_line3; inversion H; subst; split; auto.
    - now rewrite app_nil_r.
    - rewrite nonspace_concat_app. simpl concat at 2.
      now rewrite app_nil_r. }
  destruct H5 as [-> ->].
  rewrite H4, nonspace_concat_app, <- !app_assoc. f_equal.
  rewrite <- !nonspace_app. now rewrite H3.
Qed.

Lemma wrap_loop_content (fuel : nat) (width : Z) (lines chunks out : list str) :
  Textwrap.wrap_loop fuel width lines chunks = Returns out ->
  nonspace (concat out) = nonspace (concat lines) ++ nonspace (concat chunks).
Proof.
  revert lines chunks. induction fuel as [|fuel IH]; intros lines chunks H.
  - destruct chunks; simpl in H; [|discriminate].
    inversion H. now rewrite app_nil_r.
  - destruct chunks as [|chunk chunks].
    + simpl in H. inversion H. now rewrite app_nil_r.
    + cbn [Textwrap.wrap_loop] in H.
      destruct (Textwrap.wrap_line width lines (chunk :: chunks))
        as [lines' chunks'] eqn:W.
      rewrite (IH _ _ H). exact (wrap_line_content _ _ _ _ _ W).
Qed.

(** [fill] changes whitespace only. *)
Lemma fill_content (text wrapped : str) (width : Z) :
  Textwrap.fill ucd text width = Returns wrapped ->
  nonspace wrapped = nonspace text.
Proof.
  unfold Textwrap.fill. intro H.
  apply bind_returns in H. destruct H as [ls [E R]].
  inversion R; subst. clear R.
  unfold Textwrap.wrap, Textwrap._wrap_chunks in E.
  destruct (width <=? 0); [discriminate|].
  apply wrap_loop_content in E.
  rewrite nonspace_join by reflexivity. rewrite E. simpl.
  unfold Textwrap._split. rewrite split_scan_concat. simpl.
  apply nonspace_munge.
Qed.

End Content.

Section ReflowContent.

Variable ucd : unicode_db.

Lemma for_each_content {A : Type} (measure : A -> str)
    (body : A -> outcome (list str)) (xs : list A) (acc out : list str) :
  (forall x o, In x xs -> body x = Returns o ->
               nonspace (concat o) = nonspace (measure x)) ->
  for_each body xs acc = Returns out ->
  nonspace (concat out)
  = nonspace (concat acc) ++ nonspace (concat (map measure xs)).
Proof.
  revert acc. induction xs as [|x xs IH]; intros acc Hb H; simpl in *.
  - inversion H. now rewrite app_nil_r.
  - apply bind_returns in H. destruct H as [o [E R]].
    rewrite (IH _ (fun y o' Hy => Hb y o' (or_intror Hy)) R).
    rewrite nonspace_concat_app, (Hb x o (or_introl eq_refl) E).
    now rewrite nonspace_app, <- app_assoc.
Qed.

Lemma table_line_content (width : Z) (line : str) (out : list str) :
  wrap_table_line ucd width line = Returns out ->
  nonspace (concat out) = nonspace line.
Proof.
  unfold wrap_table_line. destruct (len line <=? width).
  - intro H. inversion H. simpl. now rewrite app_nil_r.
  - destruct (contains VBAR line).
    + intro H. inversion H.
      rewrite reassemble_cells_concat, concat_cells. simpl.
      now rewrite join_split by discriminate.
    + intro H. apply bind_returns in H. destruct H as [w [E R]].
      inversion R. simpl. rewrite app_nil_r. exact (fill_content ucd _ _ _ E).
Qed.

Lemma code_line_content (width : Z) (line : str) (out : list str) :
  wrap_code_line ucd width line = Returns out ->
  nonspace (concat out) = nonspace line.
Proof.
  unfold wrap_code_line.
  destruct (Z.leb_spec (len line) width) as [_|Hlong].
  - intro H. inversion H. simpl. now rewrite app_nil_r.
  - destruct (indent_cut line) as [Ea [Ec [Ews _]]]. cbv zeta in *.
    destruct (20 <? _).
    + unfold fill_indented. intro H.
      apply bind_returns in H. destruct H as [w [E R]]. inversion R.
      rewrite Ec in E. apply fill_content in E.
      assert (L : nonspace line = nonspace (lstrip line)).
      { rewrite <- Ea at 1.
        now rewrite nonspace_app, (nonspace_blank _ Ews), Ec. }
      rewrite L, <- E.
      rewrite <- (nonspace_split w [LF]) by (discriminate || reflexivity).
      clear - Ews. induction (split w [LF]) as [|l ls IH]; [reflexivity|].
      simpl map. rewrite !nonspace_concat_cons, IH, nonspace_app.
      now rewrite (nonspace_blank _ Ews).
    + intro H. inversion H. unfold hard_cut.
      destruct (Z.ltb_spec width (len line)) as [_|?]; [|lia].
      simpl. now rewrite app_nil_r, slice_to_from.
Qed.

Lemma prose_line_content (width : Z) (line : str) (out : list str) :
  wrap_prose_line ucd width line = Returns out ->
  nonspace (concat out) = nonspace line.
Proof.
  unfold wrap_prose_line. destruct (len (strip line) =? 0) eqn:Hb.
  - intro H. inversion H. apply blank_line_test in Hb.
    now rewrite (nonspace_blank _ Hb).
  - destruct (len line <=? width).
    + intro H. inversion H. simpl. now rewrite app_nil_r.
    + intro H. apply bind_returns in H. destruct H as [w [E R]].
      inversion R. simpl. rewrite app_nil_r. exact (fill_content ucd _ _ _ E).
Qed.

Lemma paragraph_content (width : Z) (paragraph : str) (out : list str) :
  wrap_paragraph ucd width paragraph = Returns out ->
  nonspace (concat out) = nonspace paragraph.
Proof.
  unfold wrap_paragraph, wrap_code_block, wrap_prose. intro H.
  apply bind_returns in H. destruct H as [w [E R]]. inversion R. subst out.
  simpl. rewrite app_nil_r. clear R.
  destruct (is_code_block paragraph);
    apply bind_returns in E; destruct E as [ls [E R]]; inversion R;
    rewrite nonspace_join by reflexivity.
  - rewrite (for_each_content (fun l => l) _ _ _ _
               (fun x o _ => code_line_content width x o) E).
    rewrite map_id. simpl. now apply nonspace_split.
  - rewrite (for_each_content (fun l => l) _ _ _ _
               (fun x o _ => prose_line_content width x o) E).
    rewrite map_id. simpl. now apply nonspace_split.
Qed.

(** The helper changes whitespace only. *)
Lemma reflow_content (width : Z) (text reflowed : str) :
  (if has_table_chars text
   then wrap_table ucd width text
   else wrap_paragraphs ucd width text) = Returns reflowed ->
  nonspace reflowed = nonspace text.
Proof.
  unfold wrap_table, wrap_paragraphs. intro H.
  destruct (has_table_chars text);
    apply bind_returns in H; destruct H as [ls [E R]]; inversion R;
    rewrite nonspace_join by reflexivity.
  - rewrite (for_each_content (fun l => l) _ _ _ _
               (fun x o _ => table_line_content width x o) E).
    rewrite map_id. simpl. now apply nonspace_split.
  - rewrite (for_each_content (fun l => l) _ _ _ _
               (fun x o _ => paragraph_content width x o) E).
    rewrite map_id. simpl. now apply nonspace_split.
Qed.

End ReflowContent.

(** ** Which calls raise *)

Section Raising.

Variable ucd : unicode_db.

(** A loop whose passes return or raise [e] raises [e] if a pass does,
    and returns otherwise. *)
Lemma for_each_cases {A B : Type} (e : exn) (body : A -> outcome (list B))
    (xs : list A) (acc : list B) :
  (forall x, In x xs -> body x = Raises e \/ exists o, body x = Returns o) ->
  (for_each body xs acc = Raises e
   /\ Exists (fun x => body x = Raises e) xs)
  \/ (exists r, for_each body xs acc = Returns r
               /\ Forall (fun x => exists o, body x = Returns o) xs).
Proof.
  revert acc. induction xs as [|x xs IH]; intros acc H; simpl.
  - right. exists acc. split; [reflexivity|constructor].
  - destruct (H x (or_introl eq_refl)) as [E|[o E]]; rewrite E; simpl.
    + left. split; [reflexivity|now constructor].
    + destruct (IH (acc ++ o) (fun y Hy => H y (or_intror Hy)))
        as [[R Ex]|[r [R Fa]]].
      * left. split; [exact R|now apply Exists_cons_tl].
      * right. exists r. split; [exact R|].
        constructor; [now exists o|exact Fa].
Qed.

Lemma table_line_at_nonpositive_width (width : Z) (line : str) :
  width <= 0 ->
  (width < len line /\ contains VBAR line = false
   /\ wrap_table_line ucd width line = Raises ValueError)
  \/ (~ (width < len line /\ contains VBAR line = false)
      /\ exists o, wrap_table_line ucd width line = Returns o).
Proof.
  intro Hw. unfold wrap_table_line.
  destruct (Z.leb_spec (len line) width) as [Hfit|Hlong].
  - right. split; [lia|eexists; reflexivity].
  - destruct (contains VBAR line).
    + right. split; [intros [_ ?]; discriminate|eexists; reflexivity].
    + left. rewrite fill_raises by exact Hw. auto.
Qed.

Lemma prose_line_at_nonpositive_width (width : Z) (line : str) :
  width <= 0 ->
  (forallb isspace line = false /\ width < len line
   /\ wrap_prose_line ucd width line = Raises ValueError)
  \/ (~ (forallb isspace line = false /\ width < len line)
      /\ exists o, wrap_prose_line ucd width line = Returns o).
Proof.
  intro Hw. unfold wrap_prose_line.
  destruct (len (strip line) =? 0) eqn:Hb.
  - right. apply blank_line_test in Hb.
    split; [intros [? _]; congruence|eexists; reflexivity].
  - assert (Hn : forallb isspace line = false).
    { destruct (forallb isspace line) eqn:F; [|reflexivity].
      apply blank_line_test in F. congruence. }
    destruct (Z.leb_spec (len line) width) as [Hfit|Hlong].
    + right. split; [lia|eexists; reflexivity].
    + left. rewrite fill_raises by exact Hw. auto.
Qed.

Lemma paragraph_at_nonpositive_width (width : Z) (paragraph : str) :
  width <= 0 ->
  (is_code_block paragraph = false
   /\ Exists (fun line => forallb isspace line = false /\ width < len line)
             (split paragraph [LF])
   /\ wrap_paragraph ucd width paragraph = Raises ValueError)
  \/ (~ (is_code_block paragraph = false
         /\ Exists (fun line =>
                      forallb isspace line = false /\ width < len line)
                   (split paragraph [LF]))
      /\ exists o, wrap_paragraph ucd width paragraph = Returns o).
Proof.
  intro Hw. unfold wrap_paragraph, wrap_code_block, wrap_prose.
  destruct (is_code_block paragraph).
  - right. split; [intros [? _]; discriminate|].
    destruct (for_each_total (wrap_code_line ucd width)
                (split paragraph [LF]) []) as [ls E].
    + intros l _. apply wrap_code_line_total.
    + rewrite E. eexists; reflexivity.
  - destruct (for_each_cases ValueError (wrap_prose_line ucd width)
                (split paragraph [LF]) []) as [[R Ex]|[r [R Fa]]].
    + intros l _.
      destruct (prose_line_at_nonpositive_width width l Hw)
        as [[_ [_ E]]|[_ E]]; auto.
    + left. rewrite R. repeat split; auto.
      eapply Exists_impl; [|exact Ex]. intros l El. cbv beta in El.
      destruct (prose_line_at_nonpositive_width width l Hw)
        as [[F [L _]]|[_ [o E]]]; [auto|congruence].
    + right. rewrite R. split; [|eexists; reflexivity].
      intros [_ Ex]. rewrite Forall_forall in Fa.
      apply Exists_exists in Ex. destruct Ex as [l [Hl [F L]]].
      destruct (Fa l Hl) as [o E].
      destruct (prose_line_at_nonpositive_width width l Hw)
        as [[_ [_ E']]|[N _]]; [congruence|now apply N].
Qed.

(** At a width of zero or less the helper raises exactly when some line
    has to be word-filled. *)
Lemma reflow_at_nonpositive_width (width : Z) (text : str) :
  width <= 0 ->
  (needs_word_fill width text ->
   (if has_table_chars text
    then wrap_table ucd width text
    else wrap_paragraphs ucd width text) = Raises ValueError)
  /\ (~ needs_word_fill width text ->
      exists reflowed,
        (if has_table_chars text
         then wrap_table ucd width text
         else wrap_paragraphs ucd width text) = Returns reflowed).
Proof.
  intro Hw. unfold needs_word_fill, wrap_table, wrap_paragraphs.
  destruct (has_table_chars text).
  - destruct (for_each_cases ValueError (wrap_table_line ucd width)
                (split text [LF]) []) as [[R Ex]|[r [R Fa]]].
    + intros l _.
      destruct (table_line_at_nonpositive_width width l Hw)
        as [[_ [_ E]]|[_ E]]; auto.
    + rewrite R. split; [reflexivity|]. intro N. exfalso. apply N.
      eapply Exists_impl; [|exact Ex]. intros l El. cbv beta in El.
      destruct (table_line_at_nonpositive_width width l Hw)
        as [[L [B _]]|[_ [o E]]]; [auto|congruence].
    + rewrite R. split; [|eexists; reflexivity].
      intro Ex. exfalso. rewrite Forall_forall in Fa.
      apply Exists_exists in Ex. destruct Ex as [l [Hl HL]].
      destruct (Fa l Hl) as [o E].
      destruct (table_line_at_nonpositive_width width l Hw)
        as [[_ [_ E']]|[N _]]; [congruence|now apply N].
  - destruct (for_each_cases ValueError (wrap_paragraph ucd width)
                (split text [LF; LF]) []) as [[R Ex]|[r [R Fa]]].
    + intros p _.
      destruct (paragraph_at_nonpositive_width width p Hw)
        as [[_ [_ E]]|[_ E]]; auto.
    + rewrite R. split; [reflexivity|]. intro N. exfalso. apply N.
      eapply Exists_impl; [|exact Ex]. intros p Ep. cbv beta in Ep.
      destruct (paragraph_at_nonpositive_width width p Hw)
        as [[C [L _]]|[_ [o E]]]; [auto|congruence].
    + rewrite R. split; [|eexists; reflexivity].
      intro Ex. exfalso. rewrite Forall_forall in Fa.
      apply Exists_exists in Ex. destruct Ex as [p [Hp HP]].
      destruct (Fa p Hp) as [o E].
      destruct (paragraph_at_nonpositive_width width p Hw)
        as [[_ [_ E']]|[N _]]; [congruence|now apply N].
Qed.

(** At a width of at least 1 the helper returns. *)
Lemma reflow_total (width : Z) (text : str) :
  1 <= width ->
  exists reflowed,
    (if has_table_chars text
     then wrap_table ucd width text
     else wrap_paragraphs ucd width text) = Returns reflowed.
Proof.
  intro Hw. unfold wrap_table, wrap_paragraphs.
  destruct (has_table_chars text).
  - destruct (for_each_total (wrap_table_line ucd width)
                (split text [LF]) []) as [ls E].
    + intros l _. now apply wrap_table_line_total.
    + rewrite E. eexists; reflexivity.
  - destruct (for_each_total (wrap_paragraph ucd width)
                (split text [LF; LF]) []) as [ls E].
    + intros p _. now apply wrap_paragraph_total.
    + rewrite E. eexists; reflexivity.
Qed.

End Raising.

(** X1.  Whenever [wrap_text_for_terminal] returns, the characters of the
    result that are not whitespace are those of the input, in the same
    order: in every branch reflowing adds, drops or replaces whitespace
    only, and never loses, duplicates or reorders anything else. *)
Theorem reflow_changes_whitespace_only (ucd : unicode_db) (terminal_width : Z)
    (text reflowed : str) (width : option Z) :
  wrap_text_for_terminal ucd terminal_width text width = Returns reflowed ->
  nonspace reflowed = nonspace text.
Proof. unfold wrap_text_for_terminal. apply reflow_content. Qed.

(** A paragraph with a tab, a hyphenated word and a whitespace-only
    line, and a code block with a long line, at width 12. *)
Lemma reflow_changes_whitespace_only_witness :
  wrap_text_for_terminal ascii_db 80
    (join [LF] [lit "a well-known" ++ [TAB] ++ lit "fact about wrapping";
                lit "   "; lit ""; lit "```";
                lit "    x = compute(1, 2, 3, 4)"])
    (Some 12)
  = Returns (join [LF] [lit "a well-known"; lit "fact about"; lit "wrapping";
                        lit ""; lit ""; lit "```"; lit "    x = comp";
                        lit "ute(1, 2, 3, 4)"])
  /\ nonspace (join [LF] [lit "a well-known"; lit "fact about";
                          lit "wrapping"; lit ""; lit ""; lit "```";
                          lit "    x = comp"; lit "ute(1, 2, 3, 4)"])
     = nonspace (join [LF] [lit "a well-known" ++ [TAB]
                              ++ lit "fact about wrapping";
                            lit "   "; lit ""; lit "```";
                            lit "    x = compute(1, 2, 3, 4)"]).
Proof.
  assert (E : wrap_text_for_terminal ascii_db 80
                (join [LF] [lit "a well-known" ++ [TAB]
                              ++ lit "fact about wrapping";
                            lit "   "; lit ""; lit "```";
                            lit "    x = compute(1, 2, 3, 4)"])
                (Some 12)
              = Returns (join [LF] [lit "a well-known"; lit "fact about";
                                    lit "wrapping"; lit ""; lit "";
                                    lit "```"; lit "    x = comp";
                                    lit "ute(1, 2, 3, 4)"]))
    by (vm_compute; reflexivity).
  split; [exact E|].
  exact (reflow_changes_whitespace_only ascii_db 80 _ _ (Some 12) E).
Defined.

(** X2.  At a width of at least 1, a text without table characters in
    which no long line of a code block is indented so deep that it is
    hard-cut comes back with every line within the width: long lines of
    regular text are filled, and so are long lines of code blocks behind
    their indent. *)
Theorem reflowed_lines_fit (ucd : unicode_db) (terminal_width : Z)
    (text : str) (width : option Z) :
  has_table_chars text = false ->
  1 <= effective_width width terminal_width ->
  free_of_hard_cuts (effective_width width terminal_width) text ->
  exists reflowed,
    wrap_text_for_terminal ucd terminal_width text width = Returns reflowed
    /\ fits (effective_width width terminal_width) reflowed.
Proof.
  intros Ht Hw Hcut. unfold wrap_text_for_terminal. rewrite Ht.
  now apply reflow_fits.
Qed.

Lemma reflowed_lines_fit_witness :
  exists reflowed,
    wrap_text_for_terminal ascii_db 80
      (join [LF] [lit "the quick brown fox jumps over the lazy dog again";
                  lit "";
                  lit "```";
                  lit "    alpha beta gamma delta epsilon zeta eta theta"])
      (Some 30)
    = Returns reflowed
    /\ fits 30 reflowed.
Proof.
  apply (reflowed_lines_fit ascii_db 80 _ (Some 30)).
  - vm_compute. reflexivity.
  - vm_compute. discriminate.
  - closed_free_of_hard_cuts.
Defined.

(** X3.  At a width of zero or less [wrap_text_for_terminal] raises
    [ValueError] exactly when some line has to be word-filled: in a
    table text a line longer than the width that has no separator, in
    other text a line with something else than whitespace in a paragraph
    of regular text.  Otherwise it returns: a text made of code blocks
    and whitespace-only lines is accepted at every width. *)
Theorem raises_exactly_when_filling (ucd : unicode_db) (terminal_width : Z)
    (text : str) (width : Z) :
  width <= 0 ->
  (needs_word_fill width text ->
   wrap_text_for_terminal ucd terminal_width text (Some width)
   = Raises ValueError)
  /\ (~ needs_word_fill width text ->
      exists reflowed,
        wrap_text_for_terminal ucd terminal_width text (Some width)
        = Returns reflowed).
Proof.
  intro Hw. unfold wrap_text_for_terminal. simpl effective_width.
  now apply reflow_at_nonpositive_width.
Qed.

(** Regular text raises at width 0; a code block is cut and returned. *)
Lemma raises_exactly_when_filling_witness :
  wrap_text_for_terminal ascii_db 80 (lit "abc") (Some 0) = Raises ValueError
  /\ exists reflowed,
       wrap_text_for_terminal ascii_db 80 (join [LF] [lit "```"; lit "abc"])
         (Some 0)
       = Returns reflowed.
Proof.
  split.
  - apply (proj1 (raises_exactly_when_filling ascii_db 80 (lit "abc") 0
                    ltac:(vm_compute; discriminate))).
    unfold needs_word_fill. change (has_table_chars (lit "abc")) with false.
    cbv iota. eval_split. apply Exists_cons_hd.
    split; [vm_compute; reflexivity|].
    eval_split. apply Exists_cons_hd. split; vm_compute; reflexivity.
  - apply (proj2 (raises_exactly_when_filling ascii_db 80
                    (join [LF] [lit "```"; lit "abc"]) 0
                    ltac:(vm_compute; discriminate))).
    unfold needs_word_fill.
    change (has_table_chars (join [LF] [lit "```"; lit "abc"])) with false.
    cbv iota. intro H. apply Exists_exists in H.
    destruct H as [p [Hp [C _]]]. vm_compute in Hp.
    destruct Hp as [<-|[]]. vm_compute in C. discriminate.
Defined.

(** X4.  [format_markdown_for_terminal] always has a text to hand to the
    renderer, whatever the terminal reports as its width: the width it
    wraps to is at least 50, so the wrapping never raises; the text is
    the one [wrap_text_for_terminal] gives when called without a width,
    and differs from the Markdown source in whitespace only. *)
Theorem format_markdown_always_wraps (ucd : unicode_db) (terminal_width : Z)
    (markdown_text : str) :
  exists wrapped_text,
    format_markdown_for_terminal ucd terminal_width markdown_text
    = Returns wrapped_text
    /\ wrap_text_for_terminal ucd terminal_width markdown_text None
       = Returns wrapped_text
    /\ nonspace wrapped_text = nonspace markdown_text.
Proof.
  unfold format_markdown_for_terminal, wrap_text_for_terminal.
  simpl effective_width.
  destruct (reflow_total ucd (Z.max 50 (terminal_width - 15)) markdown_text
              ltac:(lia)) as [w E].
  exists w. repeat split; try exact E.
  exact (reflow_content ucd _ _ _ E).
Qed.

(** ** Messages and their roles *)

Section Sanitize.

Lemma str_eqb_eq (a b : str) : str_eqb a b = true <-> a = b.
Proof.
  revert b. induction a as [|x a IH]; intros [|y b]; simpl;
    try (split; [discriminate|discriminate]); [tauto|].
  rewrite andb_true_iff, N.eqb_eq, IH. split.
  - intros [-> ->]. reflexivity.
  - intro H. inversion H. auto.
Qed.

Lemma str_eqb_refl (a : str) : str_eqb a a = true.
Proof. now apply str_eqb_eq. Qed.

Lemma str_eqb_neq (a b : str) : a <> b -> str_eqb a b = false.
Proof.
  intro H. destruct (str_eqb a b) eqn:E; [|reflexivity].
  apply str_eqb_eq in E. contradiction.
Qed.

Lemma str_in_iff (x : str) (l : list str) : str_in x l = true <-> In x l.
Proof.
  unfold str_in. rewrite existsb_exists. split.
  - intros [y [Hy E]]. apply str_eqb_eq in E. now subst.
  - intro H. exists x. split; [exact H|apply str_eqb_refl].
Qed.

Lemma getitem_setitem (d : dict) (key value : str) :
  getitem (setitem d key value) key = Ok value.
Proof.
  induction d as [|[k v] d IH]; simpl.
  - now rewrite str_eqb_refl.
  - destruct (str_eqb k key) eqn:E; simpl; rewrite E; [reflexivity|exact IH].
Qed.

Lemma getitem_setitem_other (d : dict) (key value other : str) :
  other <> key -> getitem (setitem d key value) other = getitem d other.
Proof.
  intro Hne. induction d as [|[k v] d IH]; simpl.
  - rewrite str_eqb_neq by congruence. reflexivity.
  - destruct (str_eqb k key) eqn:E; simpl.
    + apply str_eqb_eq in E. subst k.
      rewrite str_eqb_neq by congruence. reflexivity.
    + destruct (str_eqb k other); [reflexivity|exact IH].
Qed.

(** Assigning to a key the dictionary has keeps the keys and their
    order. *)
Lemma keys_setitem (d : dict) (key value old : str) :
  getitem d key = Ok old -> map fst (setitem d key value) = map fst d.
Proof.
  induction d as [|[k v] d IH]; simpl; [discriminate|].
  destruct (str_eqb k key); simpl; [reflexivity|].
  intro H. now rewrite IH.
Qed.

Lemma invalid_role_is_not_user (role : str) :
  str_in role valid_roles = false -> str_eqb role (lit "user") = false.
Proof.
  intro H. destruct (str_eqb role (lit "user")) eqn:E; [|reflexivity].
  apply str_eqb_eq in E. subst role. discriminate.
Qed.

(** The only error of a lookup is the [KeyError] of its key. *)
Lemma getitem_error (d : dict) (key : str) (e : error) :
  getitem d key = Err e -> e = KeyError key.
Proof.
  induction d as [|[k v] d IH]; simpl.
  - intro H. now inversion H.
  - destruct (str_eqb k key); [discriminate|exact IH].
Qed.

(** What the body of the loop does to one message. *)
Lemma sanitize_message_spec (message : dict) :
  match getitem message (lit "role") with
  | Err e => sanitize_message message = Err (KeyError (lit "role"))
  | Ok role =>
      sanitize_message message
      = Ok (if str_in role valid_roles
            then message
            else setitem message (lit "role") (lit "assistant"))
  end.
Proof.
  unfold sanitize_message. cbv zeta.
  destruct (getitem message (lit "role")) as [role|e] eqn:G;
    cbn [and_then].
  - destruct (str_in role valid_roles) eqn:V; cbn [negb]; [reflexivity|].
    now rewrite (invalid_role_is_not_user role V).
  - now rewrite (getitem_error _ _ _ G).
Qed.

Lemma sanitize_loop_spec (history acc sanitized : list dict) :
  sanitize_loop history acc = Ok sanitized ->
  exists out,
    sanitized = acc ++ out
    /\ Forall2 (fun message message' =>
                  sanitize_message message = Ok message') history out.
Proof.
  revert acc. induction history as [|m history IH]; intros acc H; simpl in H.
  - inversion H. exists []. rewrite app_nil_r. split; [reflexivity|constructor].
  - destruct (sanitize_message m) as [m'|e] eqn:E; simpl in H; [|discriminate].
    destruct (IH _ H) as [out [-> F]].
    exists (m' :: out). rewrite <- app_assoc. split; [reflexivity|].
    now constructor.
Qed.

Lemma sanitize_loop_ok (history acc out : list dict) :
  Forall2 (fun message message' => sanitize_message message = Ok message')
          history out ->
  sanitize_loop history acc = Ok (acc ++ out).
Proof.
  intro F. revert acc. induction F as [|m m' history out E F IH]; intro acc.
  - simpl. now rewrite app_nil_r.
  - simpl. rewrite E. simpl. rewrite IH, <- app_assoc. reflexivity.
Qed.

(** A message with one of the four roles is its own sanitized copy. *)
Lemma sanitize_message_valid (m : dict) (r : str) :
  getitem m (lit "role") = Ok r -> In r valid_roles ->
  sanitize_message m = Ok m.
Proof.
  intros G V. pose proof (sanitize_message_spec m) as S. rewrite G in S.
  apply str_in_iff in V. now rewrite V in S.
Qed.

End Sanitize.

Section SanitizeHistory.

Lemma sanitize_message_result (m m' : dict) :
  sanitize_message m = Ok m' ->
  exists role,
    getitem m (lit "role") = Ok role
    /\ m' = (if str_in role valid_roles
             then m
             else setitem m (lit "role") (lit "assistant")).
Proof.
  intro H. pose proof (sanitize_message_spec m) as S.
  destruct (getitem m (lit "role")) as [role|e]; [|congruence].
  exists role. split; [reflexivity|congruence].
Qed.

Lemma sanitize_message_has_valid_role (m m' : dict) :
  sanitize_message m = Ok m' -> has_valid_role m'.
Proof.
  intro H. destruct (sanitize_message_result m m' H) as [role [G ->]].
  destruct (str_in role valid_roles) eqn:V.
  - exists role. split; [exact G|now apply str_in_iff].
  - exists (lit "assistant"). split; [apply getitem_setitem|].
    simpl. tauto.
Qed.

Lemma sanitize_history_result (history sanitized : list dict) (model : str) :
  sanitize_conversation_history history model = Ok sanitized ->
  Forall2 (fun m m' => sanitize_message m = Ok m') history sanitized.
Proof.
  intro H. destruct (sanitize_loop_spec _ _ _ H) as [out [-> F]]. exact F.
Qed.

Lemma sanitize_valid_history (history : list dict) (model : str) :
  Forall has_valid_role history ->
  sanitize_conversation_history history model = Ok history.
Proof.
  intro H. unfold sanitize_conversation_history.
  rewrite (sanitize_loop_ok history [] history); [reflexivity|].
  induction H as [|m history [r [G V]] H IH]; constructor; [|exact IH].
  exact (sanitize_message_valid m r G V).
Qed.

Lemma sanitize_loop_raises (history acc : list dict) :
  Exists (fun m => getitem m (lit "role") = Err (KeyError (lit "role")))
         history ->
  sanitize_loop history acc = Err (KeyError (lit "role")).
Proof.
  revert acc. induction history as [|m history IH]; intros acc H.
  - inversion H.
  - simpl. pose proof (sanitize_message_spec m) as S.
    destruct (getitem m (lit "role")) as [role|e] eqn:G.
    + rewrite S. simpl. apply IH.
      inversion H; subst; [congruence|assumption].
    + rewrite S. reflexivity.
Qed.

End SanitizeHistory.

(** X5.  When [sanitize_conversation_history] returns, the result has as
    many messages as the history and every one of them has a role that is
    'user', 'assistant', 'system' or 'tool'. *)
Theorem sanitized_roles_are_valid (history sanitized : list dict)
    (selected_model : str) :
  sanitize_conversation_history history selected_model = Ok sanitized ->
  length sanitized = length history /\ Forall has_valid_role sanitized.
Proof.
  intro H. apply sanitize_history_result in H.
  induction H as [|m m' history sanitized E F [IHl IHf]];
    [split; [reflexivity|constructor]|].
  split; [simpl; congruence|].
  constructor; [exact (sanitize_message_has_valid_role m m' E)|exact IHf].
Qed.

Lemma sanitized_roles_are_valid_witness :
  sanitize_conversation_history
    [user_message (lit "hi");
     [(lit "role", lit "model"); (lit "content", lit "hello")];
     [(lit "content", lit "x"); (lit "role", lit "User")]]
    (lit "gemma3")
  = Ok [user_message (lit "hi");
        assistant_message (lit "hello");
        [(lit "content", lit "x"); (lit "role", lit "assistant")]]
  /\ length [user_message (lit "hi");
             assistant_message (lit "hello");
             [(lit "content", lit "x"); (lit "role", lit "assistant")]]
     = 3%nat
  /\ Forall has_valid_role
            [user_message (lit "hi");
             assistant_message (lit "hello");
             [(lit "content", lit "x"); (lit "role", lit "assistant")]].
Proof.
  assert (E : sanitize_conversation_history
                [user_message (lit "hi");
                 [(lit "role", lit "model"); (lit "content", lit "hello")];
                 [(lit "content", lit "x"); (lit "role", lit "User")]]
                (lit "gemma3")
              = Ok [user_message (lit "hi");
                    assistant_message (lit "hello");
                    [(lit "content", lit "x"); (lit "role", lit "assistant")]])
    by (vm_compute; reflexivity).
  split; [exact E|].
  exact (sanitized_roles_are_valid _ _ _ E).
Defined.

(** X6.  [sanitize_conversation_history] changes nothing but roles:
    each message of the result has the keys of the message it comes from,
    in the same order, and the same value under every key other than
    'role'; its role is the original one if that is valid and 'assistant'
    otherwise, never 'user'. *)
Theorem sanitize_touches_roles_only (history sanitized : list dict)
    (selected_model : str) :
  sanitize_conversation_history history selected_model = Ok sanitized ->
  Forall2 (fun message message' =>
             map fst message' = map fst message
             /\ (forall key, key <> lit "role" ->
                             getitem message' key = getitem message key)
             /\ exists role,
                  getitem message (lit "role") = Ok role
                  /\ getitem message' (lit "role")
                     = Ok (if str_in role valid_roles
                           then role
                           else lit "assistant"))
          history sanitized.
Proof.
  intro H. apply sanitize_history_result in H.
  induction H as [|m m' history sanitized E F IH]; constructor; [|exact IH].
  destruct (sanitize_message_result m m' E) as [role [G ->]].
  destruct (str_in role valid_roles) eqn:V.
  - repeat split; auto. exists role. now rewrite V.
  - repeat split.
    + exact (keys_setitem m _ _ role G).
    + intros key Hk. now apply getitem_setitem_other.
    + exists role. rewrite V. split; [exact G|apply getitem_setitem].
Qed.

Lemma sanitize_touches_roles_only_witness :
  Forall2 (fun message message' =>
             map fst message' = map fst message
             /\ (forall key, key <> lit "role" ->
                             getitem message' key = getitem message key)
             /\ exists role,
                  getitem message (lit "role") = Ok role
                  /\ getitem message' (lit "role")
                     = Ok (if str_in role valid_roles
                           then role
                           else lit "assistant"))
          [[(lit "content", lit "x"); (lit "role", lit "User");
            (lit "images", lit "none")]]
          [[(lit "content", lit "x"); (lit "role", lit "assistant");
            (lit "images", lit "none")]].
Proof.
  apply (sanitize_touches_roles_only _ _ (lit "gemma3")).
  vm_compute. reflexivity.
Defined.

(** X7.  A history in which every message has a valid role comes back
    from [sanitize_conversation_history] unchanged, whatever the model. *)
Theorem valid_history_unchanged (history : list dict) (selected_model : str) :
  Forall has_valid_role history ->
  sanitize_conversation_history history selected_model = Ok history.
Proof. apply sanitize_valid_history. Qed.

Lemma valid_history_unchanged_witness :
  sanitize_conversation_history
    [[(lit "role", lit "system"); (lit "content", lit "be brief")];
     [(lit "content", lit "hi"); (lit "role", lit "user")];
     [(lit "role", lit "tool"); (lit "content", lit "42")]]
    (lit "phi4")
  = Ok [[(lit "role", lit "system"); (lit "content", lit "be brief")];
        [(lit "content", lit "hi"); (lit "role", lit "user")];
        [(lit "role", lit "tool"); (lit "content", lit "42")]].
Proof.
  apply valid_history_unchanged.
  repeat constructor; eexists; (split; [vm_compute; reflexivity|]);
    simpl; tauto.
Defined.

(** X8.  The histories the chat loop builds, made of the messages
    [{'role': 'user', 'content': ...}] and
    [{'role': 'assistant', 'content': ...}] it appends, always pass
    through [sanitize_conversation_history] unchanged: what the client
    sends to the model is the history itself. *)
Theorem chat_history_unchanged (history : list dict) (selected_model : str) :
  Forall (fun message =>
            exists content,
              message = user_message content
              \/ message = assistant_message content) history ->
  sanitize_conversation_history history selected_model = Ok history.
Proof.
  intro H. apply sanitize_valid_history.
  eapply Forall_impl; [|exact H].
  intros m [content [->| ->]].
  - exists (lit "user"). split; [reflexivity|simpl; tauto].
  - exists (lit "assistant"). split; [reflexivity|simpl; tauto].
Qed.

Lemma chat_history_unchanged_witness :
  sanitize_conversation_history
    [user_message (lit "hi"); assistant_message (lit "hello");
     user_message (lit "bye")] (lit "gemma3")
  = Ok [user_message (lit "hi"); assistant_message (lit "hello");
        user_message (lit "bye")].
Proof.
  apply chat_history_unchanged.
  repeat constructor; eexists; (left; reflexivity) || (right; reflexivity).
Defined.

(** X9.  [sanitize_conversation_history] is idempotent: sanitizing the
    result of a call gives the result again. *)
Theorem sanitize_is_idempotent (history sanitized : list dict)
    (selected_model other_model : str) :
  sanitize_conversation_history history selected_model = Ok sanitized ->
  sanitize_conversation_history sanitized other_model = Ok sanitized.
Proof.
  intro H. apply sanitize_valid_history.
  apply sanitize_history_result in H.
  induction H as [|m m' history sanitized E F IH]; constructor; [|exact IH].
  exact (sanitize_message_has_valid_role m m' E).
Qed.

Lemma sanitize_is_idempotent_witness :
  sanitize_conversation_history
    [[(lit "role", lit "bot"); (lit "content", lit "hello")]] (lit "gemma3")
  = Ok [assistant_message (lit "hello")]
  /\ sanitize_conversation_history [assistant_message (lit "hello")]
       (lit "phi4")
     = Ok [assistant_message (lit "hello")].
Proof.
  assert (E : sanitize_conversation_history
                [[(lit "role", lit "bot"); (lit "content", lit "hello")]]
                (lit "gemma3")
              = Ok [assistant_message (lit "hello")])
    by (vm_compute; reflexivity).
  split; [exact E|].
  exact (sanitize_is_idempotent _ _ _ (lit "phi4") E).
Defined.

(** X10.  [sanitize_conversation_history] raises [KeyError] for 'role'
    when some message of the history has no 'role' key, and returns when
    every message has one. *)
Theorem sanitize_needs_roles (history : list dict) (selected_model : str) :
  (Exists (fun message =>
             getitem message (lit "role") = Err (KeyError (lit "role")))
          history ->
   sanitize_conversation_history history selected_model
   = Err (KeyError (lit "role")))
  /\ (Forall (fun message =>
                exists role, getitem message (lit "role") = Ok role) history ->
      exists sanitized,
        sanitize_conversation_history history selected_model = Ok sanitized).
Proof.
  split.
  - apply sanitize_loop_raises.
  - intro H. unfold sanitize_conversation_history.
    assert (F : exists out,
               Forall2 (fun m m' => sanitize_message m = Ok m') history out).
    { induction H as [|m history [role G] H [out IH]].
      - exists []. constructor.
      - pose proof (sanitize_message_spec m) as S. rewrite G in S.
        eexists (_ :: out). constructor; [exact S|exact IH]. }
    destruct F as [out F]. exists ([] ++ out). now apply sanitize_loop_ok.
Qed.

Lemma sanitize_needs_roles_witness :
  sanitize_conversation_history
    [user_message (lit "hi"); [(lit "content", lit "no role here")]]
    (lit "gemma3")
  = Err (KeyError (lit "role"))
  /\ exists sanitized,
       sanitize_conversation_history [user_message (lit "hi")] (lit "gemma3")
       = Ok sanitized.
Proof.
  split.
  - apply (proj1 (sanitize_needs_roles _ _)).
    apply Exists_cons_tl, Exists_cons_hd. vm_compute. reflexivity.
  - apply (proj2 (sanitize_needs_roles _ _)).
    repeat constructor. eexists. vm_compute. reflexivity.
Defined.

(** ** The list of models *)

Section Models.

Lemma split_whitespace_fields (s cur : str) :
  forallb (fun c => negb (isspace c)) cur = true ->
  Forall is_field (split_whitespace_from cur s).
Proof.
  revert cur. induction s as [|c s IH]; intros cur Hc; simpl.
  - destruct cur; constructor; [|constructor]. split; [discriminate|exact Hc].
  - destruct (isspace c) eqn:Sc.
    + apply Forall_app. split; [|now apply IH].
      destruct cur; constructor; [|constructor].
      split; [discriminate|exact Hc].
    + apply IH. rewrite forallb_app, Hc. simpl. now rewrite Sc.
Qed.

Lemma split_whitespace_nil (s cur : str) :
  split_whitespace_from cur s = [] -> cur = [] /\ forallb isspace s = true.
Proof.
  revert cur. induction s as [|c s IH]; intros cur H; simpl in *.
  - destruct cur; [auto|discriminate].
  - destruct (isspace c).
    + apply app_eq_nil in H. destruct H as [Hc Hs].
      destruct cur; [|discriminate]. destruct (IH _ Hs). auto.
    + destruct (IH _ H) as [E _]. now destruct cur.
Qed.

Lemma slice_third_and_fourth {A : Type} (p0 p1 p2 p3 : A) (rest : list A) :
  slice (p0 :: p1 :: p2 :: p3 :: rest) 2 4 = [p2; p3].
Proof. reflexivity. Qed.

(** The body of the loop never fails: a line that passes the test has a
    first field. *)
Lemma parse_model_line_spec (model : str) :
  (nonblank model = false /\ parse_model_line model = Ok [])
  \/ (nonblank model = true
      /\ exists first rest,
           split_whitespace model = first :: rest
           /\ parse_model_line model
              = Ok [{| name := first;
                       size := if 3 <? len (first :: rest)
                               then join [SPACE] (slice (first :: rest) 2 4)
                               else lit "N/A" |}]).
Proof.
  unfold parse_model_line, nonblank.
  destruct (strip model) as [|c r] eqn:S.
  - left. apply strip_nil_iff in S. now rewrite S.
  - right. assert (B : forallb isspace model = false).
    { destruct (forallb isspace model) eqn:F; [|reflexivity].
      apply strip_nil_iff in F. congruence. }
    rewrite B. split; [reflexivity|].
    destruct (split_whitespace model) as [|first rest] eqn:P.
    + apply split_whitespace_nil in P. destruct P. congruence.
    + exists first, rest. split; reflexivity.
Qed.

Lemma parse_model_line_well_formed (model : str) :
  exists entries,
    parse_model_line model = Ok entries
    /\ Forall well_formed entries
    /\ length entries = (if nonblank model then 1 else 0)%nat.
Proof.
  destruct (parse_model_line_spec model) as [[B E]|[B [first [rest [P E]]]]];
    rewrite E, B; eexists; (split; [reflexivity|]); split;
    try reflexivity; [constructor|].
  constructor; [|constructor].
  pose proof (split_whitespace_fields model [] eq_refl) as F.
  fold (split_whitespace model) in F. rewrite P in F.
  inversion F as [|? ? F0 F1]; subst. split; [exact F0|].
  cbn [size].
  destruct rest as [|p1 [|p2 [|p3 rest]]]; try (left; reflexivity).
  right. exists p2, p3.
  inversion F1 as [|? ? _ F2]; subst.
  inversion F2 as [|? ? G2 F3]; subst.
  inversion F3 as [|? ? G3 _]; subst.
  repeat split; try apply G2; try apply G3.
  replace (3 <? len (first :: p1 :: p2 :: p3 :: rest)) with true.
  - rewrite slice_third_and_fourth. reflexivity.
  - symmetry. apply Z.ltb_lt. unfold len. simpl length. lia.
Qed.

Lemma parse_models_spec (models : list str) (parsed : list model_entry) :
  exists entries,
    parse_models models parsed = Ok (parsed ++ entries)
    /\ Forall well_formed entries
    /\ length entries = length (filter nonblank models).
Proof.
  revert parsed. induction models as [|model models IH]; intro parsed.
  - exists []. rewrite app_nil_r. repeat split; constructor.
  - destruct (parse_model_line_well_formed model) as [es [E [W L]]].
    destruct (IH (parsed ++ es)) as [rest [R [Wr Lr]]].
    exists (es ++ rest). simpl. rewrite E. simpl.
    rewrite R, <- app_assoc. repeat split.
    + apply Forall_app. now split.
    + rewrite length_app, L, Lr. now destruct (nonblank model).
Qed.

End Models.

(** X11.  [get_available_models] never raises [IndexError], whatever the
    child process printed: it returns a list in which every name is a
    non-empty string without whitespace and every size is 'N/A' or two
    such strings with one space between them.  After a return code other
    than zero the list is empty. *)
Theorem models_are_always_listed (run : completed_process) :
  exists models,
    get_available_models run = Ok models
    /\ Forall well_formed models
    /\ (returncode run <> 0 -> models = []).
Proof.
  unfold get_available_models.
  destruct (Z.eqb_spec (returncode run) 0) as [E|N].
  - destruct (parse_models_spec (slice_from (splitlines (stdout run)) 1) [])
      as [entries [P [W _]]].
    exists entries. repeat split; auto. congruence.
  - exists []. repeat split; auto.
Qed.

(** X12.  After a return code of zero, [get_available_models] lists one
    model for each line of the output that has something else than
    whitespace, the first line left out: the header never counts, and
    neither do blank lines. *)
Theorem one_model_per_line (run : completed_process) :
  returncode run = 0 ->
  exists models,
    get_available_models run = Ok models
    /\ length models
       = length (filter nonblank (slice_from (splitlines (stdout run)) 1)).
Proof.
  intro E. unfold get_available_models. rewrite E. simpl Z.eqb. cbv iota.
  destruct (parse_models_spec (slice_from (splitlines (stdout run)) 1) [])
    as [entries [P [_ L]]].
  exists entries. split; assumption.
Qed.

(** An output with its header, two models and a blank line. *)
Lemma one_model_per_line_witness :
  get_available_models
    {| returncode := 0;
       stdout :=
         join [LF]
           [lit "NAME               ID              SIZE      MODIFIED";
            lit "llama3.2:latest    a80c4f17acd5    2.0 GB    3 days ago";
            lit "";
            lit "gemma3:1b          8648f39daa8f    815 MB    2 weeks ago";
            lit ""] |}
  = Ok [{| name := lit "llama3.2:latest"; size := lit "2.0 GB" |};
        {| name := lit "gemma3:1b"; size := lit "815 MB" |}]
  /\ exists models,
       get_available_models
         {| returncode := 0;
            stdout :=
              join [LF]
                [lit "NAME               ID              SIZE      MODIFIED";
                 lit "llama3.2:latest    a80c4f17acd5    2.0 GB    3 days ago";
                 lit "";
                 lit "gemma3:1b          8648f39daa8f    815 MB    2 weeks ago";
                 lit ""] |}
       = Ok models
       /\ length models = 2%nat.
Proof.
  split; [vm_compute; reflexivity|].
  apply (one_model_per_line
           {| returncode := 0;
              stdout :=
                join [LF]
                  [lit "NAME               ID              SIZE      MODIFIED";
                   lit "llama3.2:latest    a80c4f17acd5    2.0 GB    3 days ago";
                   lit "";
                   lit "gemma3:1b          8648f39daa8f    815 MB    2 weeks ago";
                   lit ""] |}).
  reflexivity.
Defined.

(** ** Multi-line input *)

Section MultiLine.

Lemma split_line_without_feed (s : str) :
  contains LF s = false -> split s [LF] = [s].
Proof.
  induction s as [|x s IH]; intro H; [reflexivity|].
  change (contains LF (x :: s)) with ((LF =? x)%N || contains LF s) in H.
  apply orb_false_elim in H. destruct H as [Hx Hs].
  rewrite split_char_cons, N.eqb_sym, Hx, IH by exact Hs. reflexivity.
Qed.

(** Lines without line feed, joined with line feeds and split again. *)
Lemma split_join_lines (lines : list str) :
  lines <> [] -> Forall (fun l => contains LF l = false) lines ->
  split (join [LF] lines) [LF] = lines.
Proof.
  intros Hne H. induction H as [|p rest Hp H IH]; [congruence|].
  destruct rest as [|q rest].
  - simpl. now apply split_line_without_feed.
  - rewrite join_cons by discriminate.
    change ([LF] ++ join [LF] (q :: rest)) with (LF :: join [LF] (q :: rest)).
    rewrite split_char_app, split_line_without_feed by exact Hp.
    rewrite IH by discriminate. reflexivity.
Qed.

Lemma read_multi_line_result (stdin lines : list str) (text : str)
    (rest : list str) :
  read_multi_line stdin lines = Ok (text, rest) ->
  exists before marker,
    stdin = before ++ marker :: rest
    /\ Forall (fun l => ~ ends_input l) before
    /\ ends_input marker
    /\ text = join [LF] (lines ++ before).
Proof.
  revert lines. induction stdin as [|line stdin IH]; intros lines H;
    simpl in H; [discriminate|].
  destruct (str_eqb (strip line) (lit "/multi-end")) eqn:E.
  - inversion H; subst. exists [], line. rewrite app_nil_r.
    repeat split; [constructor|now apply str_eqb_eq].
  - destruct (IH _ H) as [before [marker [-> [F [M T]]]]].
    exists (line :: before), marker. rewrite <- app_assoc in T.
    repeat split; auto. constructor; [|exact F].
    intro En. apply str_eqb_eq in En. congruence.
Qed.

Lemma read_multi_line_eof (stdin lines : list str) :
  Forall (fun l => ~ ends_input l) stdin ->
  read_multi_line stdin lines = Err EOFError.
Proof.
  intro H. revert lines. induction H as [|line stdin N H IH]; intro lines;
    simpl; [reflexivity|].
  destruct (str_eqb (strip line) (lit "/multi-end")) eqn:E; [|apply IH].
  apply str_eqb_eq in E. contradiction.
Qed.

End MultiLine.

(** X13.  When [get_multi_line_input] returns, it has read the input up
    to and including the first line that is '/multi-end' once stripped,
    and nothing after it; the text it returns is made of the lines before
    that one, as they were typed, joined by line feeds, so that splitting
    it at the line feeds gives these lines back (unless there was none). *)
Theorem multi_line_input_is_what_was_typed (stdin : list str) (text : str)
    (rest : list str) :
  get_multi_line_input stdin = Ok (text, rest) ->
  Forall (fun l => contains LF l = false) stdin ->
  exists before marker,
    stdin = before ++ marker :: rest
    /\ Forall (fun l => ~ ends_input l) before
    /\ ends_input marker
    /\ text = join [LF] before
    /\ (before = [] \/ split text [LF] = before).
Proof.
  intros H Hlf. apply read_multi_line_result in H.
  destruct H as [before [marker [E [F [M T]]]]]. simpl in T.
  exists before, marker. repeat split; auto.
  destruct before as [|l before]; [now left|right].
  rewrite T. apply split_join_lines; [discriminate|].
  rewrite E in Hlf. now apply Forall_app in Hlf.
Qed.

Lemma multi_line_input_is_what_was_typed_witness :
  get_multi_line_input
    [lit "def f():"; lit "    return 1"; lit "  /multi-end "; lit "exit"]
  = Ok (join [LF] [lit "def f():"; lit "    return 1"], [lit "exit"])
  /\ exists before marker,
       [lit "def f():"; lit "    return 1"; lit "  /multi-end "; lit "exit"]
       = before ++ marker :: [lit "exit"]
       /\ Forall (fun l => ~ ends_input l) before
       /\ ends_input marker
       /\ join [LF] [lit "def f():"; lit "    return 1"] = join [LF] before
       /\ (before = []
           \/ split (join [LF] [lit "def f():"; lit "    return 1"]) [LF]
              = before).
Proof.
  assert (E : get_multi_line_input
                [lit "def f():"; lit "    return 1"; lit "  /multi-end ";
                 lit "exit"]
              = Ok (join [LF] [lit "def f():"; lit "    return 1"],
                    [lit "exit"]))
    by (vm_compute; reflexivity).
  split; [exact E|].
  apply (multi_line_input_is_what_was_typed _ _ _ E).
  repeat constructor.
Defined.

(** X14.  When no line of the input is '/multi-end' once stripped,
    [get_multi_line_input] reads the input to its end and [input()]
    raises [EOFError]: the text typed so far is not returned. *)
Theorem multi_line_input_needs_end_marker (stdin : list str) :
  Forall (fun l => ~ ends_input l) stdin ->
  get_multi_line_input stdin = Err EOFError.
Proof. apply read_multi_line_eof. Qed.

Lemma multi_line_input_needs_end_marker_witness :
  get_multi_line_input [lit "first line"; lit "/multi-end now"; lit "/MULTI-END"]
  = Err EOFError.
Proof.
  apply multi_line_input_needs_end_marker.
  repeat constructor; intro H; vm_compute in H; discriminate.
Defined.

(** ** Previews and identifiers *)

Section Previews.

Lemma rstrip_last (s : str) :
  match rev (rstrip s) with
  | c :: _ => isspace c = false
  | [] => True
  end.
Proof. unfold rstrip. rewrite rev_involutive. apply lstrip_head. Qed.

Lemma strip_last (s : str) :
  match rev (strip s) with
  | c :: _ => isspace c = false
  | [] => True
  end.
Proof. apply rstrip_last. Qed.

End Previews.

(** X15.  The preview of a saved chat whose first message has a content
    is the first 50 characters of that content followed by '...': it is
    at most 53 characters long, and the three dots are there even when
    the content is short enough to be shown whole. *)
Theorem preview_is_cut_and_dotted (first : dict) (others : list dict)
    (content : str) :
  getitem first (lit "content") = Ok content ->
  exists preview,
    chat_preview (first :: others) = Ok preview
    /\ preview = firstn 50 content ++ lit "..."
    /\ len preview <= 53
    /\ (len content <= 50 -> preview = content ++ lit "...").
Proof.
  intro G. unfold chat_preview.
  replace (0 <? len (first :: others)) with true
    by (symmetry; apply Z.ltb_lt; unfold len; simpl length; lia).
  cbn [getindex nth_error and_then]. rewrite G. cbn [and_then].
  eexists. split; [reflexivity|].
  assert (E : slice_to content 50 = firstn 50 content).
  { unfold slice_to, slice_index. change (50 <? 0) with false. cbv iota.
    change (Z.to_nat 50) with 50%nat.
    destruct (Nat.le_gt_cases 50 (length content)) as [H|H].
    - now rewrite Nat.min_l.
    - rewrite Nat.min_r by lia. rewrite firstn_all.
      symmetry. apply firstn_all2. lia. }
  rewrite E. repeat split.
  - rewrite len_app. unfold len. rewrite length_firstn. simpl length. lia.
  - intro H. rewrite firstn_all2; [reflexivity|]. unfold len in H. lia.
Qed.

Lemma preview_is_cut_and_dotted_witness :
  chat_preview [user_message (lit "hi"); assistant_message (lit "hello")]
  = Ok (lit "hi...")
  /\ exists preview,
       chat_preview
         [user_message
            (lit "Please explain how the terminal wraps a very long line of text");
          assistant_message (lit "hello")]
       = Ok preview
       /\ preview
          = firstn 50
              (lit "Please explain how the terminal wraps a very long line of text")
            ++ lit "..."
       /\ len preview <= 53
       /\ (len (lit "Please explain how the terminal wraps a very long line of text")
           <= 50 ->
           preview
           = lit "Please explain how the terminal wraps a very long line of text"
             ++ lit "...").
Proof.
  split; [vm_compute; reflexivity|].
  apply preview_is_cut_and_dotted. vm_compute. reflexivity.
Defined.

(** X16.  The preview of a chat with an empty conversation is 'N/A', and
    the preview of a chat whose first message has no 'content' raises
    [KeyError]; no conversation makes it raise [IndexError]. *)
Theorem preview_edge_cases (first : dict) (others : list dict) :
  chat_preview [] = Ok (lit "N/A")
  /\ (getitem first (lit "content") = Err (KeyError (lit "content")) ->
      chat_preview (first :: others) = Err (KeyError (lit "content")))
  /\ (forall conversation, chat_preview conversation <> Err IndexError).
Proof.
  assert (P : forall (m : dict) ms, (0 <? len (m :: ms)) = true)
    by (intros; apply Z.ltb_lt; unfold len; simpl length; lia).
  repeat split.
  - intro G. unfold chat_preview. rewrite P.
    cbn [getindex nth_error and_then]. now rewrite G.
  - intros [|m conversation]; unfold chat_preview;
      [simpl; discriminate|].
    rewrite P. cbn [getindex nth_error and_then].
    destruct (getitem m (lit "content")) as [c|e] eqn:G; cbn [and_then];
      [discriminate|].
    apply getitem_error in G. subst e. discriminate.
Qed.

Lemma preview_edge_cases_witness :
  chat_preview [] = Ok (lit "N/A")
  /\ chat_preview [[(lit "role", lit "user")]]
     = Err (KeyError (lit "content")).
Proof.
  split.
  - exact (proj1 (preview_edge_cases [] [])).
  - apply (proj1 (proj2 (preview_edge_cases [(lit "role", lit "user")] []))).
    vm_compute. reflexivity.
Defined.

(** X17.  The identifier [pull_model] asks Ollama for is the name as
    typed, a colon, and a tag that is never empty and neither begins nor
    ends with whitespace: the parameter stripped, or 'latest' when the
    parameter is empty or whitespace. *)
Theorem pulled_model_has_a_tag (model_name model_size : str) :
  exists tag,
    full_model model_name model_size = model_name ++ lit ":" ++ tag
    /\ tag <> []
    /\ match tag with c :: _ => isspace c = false | [] => True end
    /\ match rev tag with c :: _ => isspace c = false | [] => True end
    /\ (forallb isspace model_size = true -> tag = lit "latest")
    /\ (forallb isspace model_size = false -> tag = strip model_size).
Proof.
  unfold full_model. cbv zeta.
  pose proof (strip_head model_size) as Hh.
  pose proof (strip_last model_size) as Hl.
  pose proof (strip_nil_iff model_size) as Hn.
  destruct (strip model_size) as [|c r] eqn:S.
  - exists (lit "latest"). repeat split; try discriminate; auto.
    intro F. rewrite (proj1 Hn eq_refl) in F. discriminate.
  - exists (c :: r). repeat split; try discriminate; auto.
    intro F. apply Hn in F. discriminate.
Qed.

(** X18.  The number typed at the menu selects the model at that
    position of the table, counted from 1, and never raises
    [IndexError]; zero, a negative number or a number past the end of the
    list is refused, so that a negative number never selects a model from
    the end of the list. *)
Theorem menu_choice_selects_by_position (models : list model_entry)
    (choice_num : Z) :
  (1 <= choice_num <= len models ->
   exists entry,
     nth_error models (Z.to_nat (choice_num - 1)) = Some entry
     /\ choose_model models choice_num = Ok (Some (name entry)))
  /\ (choice_num < 1 \/ len models < choice_num ->
      choose_model models choice_num = Ok None).
Proof.
  unfold choose_model, getindex_z, getindex. split; intro H.
  - destruct (Z.leb_spec 1 choice_num); [|lia].
    destruct (Z.leb_spec choice_num (len models)); [|lia].
    cbn [andb]. cbv zeta.
    assert (L : (choice_num - 1 <? 0) = false) by (apply Z.ltb_ge; lia).
    rewrite L. cbv iota. rewrite L. cbn [orb].
    destruct (Z.leb_spec (len models) (choice_num - 1)); [lia|].
    destruct (nth_error models (Z.to_nat (choice_num - 1))) as [e|] eqn:N.
    + exists e. split; reflexivity.
    + apply nth_error_None in N. unfold len in *. lia.
  - destruct (Z.leb_spec 1 choice_num); [|reflexivity].
    destruct (Z.leb_spec choice_num (len models)); [lia|reflexivity].
Qed.

Lemma menu_choice_selects_by_position_witness :
  choose_model [{| name := lit "gemma3"; size := lit "815 MB" |};
                {| name := lit "phi4"; size := lit "9.1 GB" |}] 2
  = Ok (Some (lit "phi4"))
  /\ choose_model [{| name := lit "gemma3"; size := lit "815 MB" |};
                   {| name := lit "phi4"; size := lit "9.1 GB" |}] (-1)
     = Ok None.
Proof.
  split.
  - destruct (proj1 (menu_choice_selects_by_position
                       [{| name := lit "gemma3"; size := lit "815 MB" |};
                        {| name := lit "phi4"; size := lit "9.1 GB" |}] 2))
      as [entry [N E]].
    + unfold len. simpl. lia.
    + simpl in N. inversion N; subst. exact E.
  - apply (proj2 (menu_choice_selects_by_position _ (-1))). left. lia.
Defined.
